(** * Length-sorted batching for model inference

    A shallow embedding of the batching core of
    [src/model_inferencing/sorting.py] (fixed-count policy) and
    [src/model_deployment/quantization.py] (token-budget policy), and of the
    [track_time] context manager both files share.

    Python integers are [Z] where they can be negative (the [max_batch_size]
    argument, [range] and slice bounds) and [nat] where they are results of
    [len].  A token sequence is a [list Z]; a batch is a list of token
    sequences.  The [dict] that groups sequences by length is an association
    list, because the code iterates over it in insertion order.  A generator
    is modelled by the list of values it yields followed by the way it
    finishes: a return value or a raised exception. *)

From Stdlib Require Import String.
From Stdlib Require Import List ZArith Lia Arith Bool Permutation Sorted.
Import ListNotations.

(** ** Python primitives used by the two files *)

Module Py.

Inductive exn : Type :=
| ValueError
| RuntimeError
| KeyboardInterrupt.

Inductive completion (R : Type) : Type :=
| Returned (r : R)
| Raised (e : exn).

Arguments Returned {R} r.
Arguments Raised {R} e.

(** What a consumer that pulls a generator to exhaustion observes. *)
Record gen_result (A R : Type) : Type := mk_gen
  { yielded : list A;
    finish : completion R }.

Arguments mk_gen {A R} yielded finish.
Arguments yielded {A R} g.
Arguments finish {A R} g.

Definition gen_yield_all {A R} (xs : list A) (g : gen_result A R) : gen_result A R :=
  {| yielded := xs ++ yielded g; finish := finish g |}.

Definition gen_map {A B R} (f : A -> B) (g : gen_result A R) : gen_result B R :=
  {| yielded := map f (yielded g); finish := finish g |}.

(** [len(range(start, stop, step))] for a non-zero step. *)
Definition range_len (start stop step : Z) : nat :=
  if (0 <? step)%Z then
    if (start <? stop)%Z then Z.to_nat (1 + (stop - 1 - start) / step) else 0
  else
    if (stop <? start)%Z then Z.to_nat (1 + (start - 1 - stop) / (- step)) else 0.

(** [range(start, stop, step)]: a zero step raises [ValueError]. *)
Definition range (start stop step : Z) : exn + list Z :=
  if (step =? 0)%Z then inl ValueError
  else inr (map (fun i => (start + Z.of_nat i * step)%Z)
                (seq 0 (range_len start stop step))).

(** A slice bound [i] of a sequence of length [n]: negative bounds count
    from the end, and every bound is clamped into [0..n]. *)
Definition slice_index (n i : Z) : Z :=
  if (i <? 0)%Z then Z.max 0 (i + n) else Z.min i n.

(** [l[lo:hi]] *)
Definition slice {A} (l : list A) (lo hi : Z) : list A :=
  let n := Z.of_nat (length l) in
  let a := slice_index n lo in
  let b := slice_index n hi in
  firstn (Z.to_nat (b - a)) (skipn (Z.to_nat a) l).

(** [sorted(l, key=key)]: Python's sort is stable, so elements with equal
    keys keep their relative order.  The head of the list is inserted in
    front of the first element whose key is not smaller. *)
Fixpoint insert_by {A} (key : A -> nat) (x : A) (l : list A) : list A :=
  match l with
  | [] => [x]
  | y :: l' => if key x <=? key y then x :: l else y :: insert_by key x l'
  end.

Definition sorted {A} (key : A -> nat) (l : list A) : list A :=
  fold_right (insert_by key) [] l.

(** [max(l)]: an empty argument raises [ValueError]. *)
Definition max (l : list nat) : exn + nat :=
  match l with
  | [] => inl ValueError
  | x :: r => inr (fold_left Nat.max r x)
  end.

(** A [dict] with [int] keys, in insertion order. *)
Definition dict (V : Type) : Type := list (nat * V).

Definition keys {V} (d : dict V) : list nat := map fst d.

Definition items {V} (d : dict V) : list (nat * V) := d.

(** [k in d] *)
Fixpoint contains {V} (k : nat) (d : dict V) : bool :=
  match d with
  | [] => false
  | (k', _) :: d' => if k =? k' then true else contains k d'
  end.

(** [d[k] = v]: an existing key keeps its place, a new one goes last. *)
Fixpoint setitem {V} (k : nat) (v : V) (d : dict V) : dict V :=
  match d with
  | [] => [(k, v)]
  | (k', v') :: d' =>
      if k =? k' then (k, v) :: d' else (k', v') :: setitem k v d'
  end.

(** [d[k].append(x)] on a key that is present: the list stored under [k]
    is extended in place.  (On a missing key Python raises [KeyError]; the
    callers below only use it right after making sure the key exists.) *)
Fixpoint append_at {X} (k : nat) (x : X) (d : dict (list X)) : dict (list X) :=
  match d with
  | [] => []
  | (k', xs) :: d' =>
      if k =? k' then (k', xs ++ [x]) :: d' else (k', xs) :: append_at k x d'
  end.

End Py.

(** ** Data model *)

Definition tokens : Type := list Z.
Definition batch : Type := list tokens.

(** [token_count]: the sum of the lengths of the sequences of a batch. *)
Definition token_count (b : batch) : nat := list_sum (map (@length Z) b).

(** [item_count]: the number of sequences of a batch. *)
Definition item_count (b : batch) : nat := length b.

(** The smallest sequence length in a batch ([0] for the empty batch). *)
Definition min_length (b : batch) : nat :=
  match b with
  | [] => 0
  | x :: r => fold_left Nat.min (map (@length Z) r) (length x)
  end.

Definition nonempty (t : tokens) : bool := negb (length t =? 0).

(** ** The length bucketer (identical in both files)

<<
    sorted_tokens = sorted(tokenized_inputs, key=len)
    sorted_batches: dict[int, list[list[int]]] = {}
    for sorted_token in sorted_tokens:
        if not len(sorted_token):
            continue
        length = len(sorted_token)
        if length not in sorted_batches:
            sorted_batches[length] = []
        sorted_batches[length].append(sorted_token)
>> *)

Module Bucketer.

(** One iteration of the [for sorted_token in sorted_tokens] loop. *)
Definition bucket_step (sorted_batches : Py.dict (list tokens)) (sorted_token : tokens)
  : Py.dict (list tokens) :=
  if length sorted_token =? 0 then sorted_batches
  else
    let len := length sorted_token in
    let d := if negb (Py.contains len sorted_batches)
             then Py.setitem len [] sorted_batches
             else sorted_batches in
    Py.append_at len sorted_token d.

(** The loop, run on an already sorted list. *)
Definition group (sorted_tokens : list tokens) : Py.dict (list tokens) :=
  fold_left bucket_step sorted_tokens [].

Definition sorted_batches (tokenized_inputs : list tokens) : Py.dict (list tokens) :=
  group (Py.sorted (@length Z) tokenized_inputs).

End Bucketer.

(** ** [sorting.py]: fixed-count policy *)

Module Sorting.

(** [(seq[pos : pos + max_size] for pos in range(0, len(seq), max_size))].
    The [range] is built when the generator expression is created, so a
    zero [max_size] raises at the call. *)
Definition chunker {A} (sq : list A) (max_size : Z) : Py.exn + list (list A) :=
  match Py.range 0 (Z.of_nat (length sq)) max_size with
  | inl e => inl e
  | inr positions =>
      inr (map (fun pos => Py.slice sq pos (pos + max_size)) positions)
  end.

(** [return "All batches have been processed."] *)
Definition all_processed : Py.completion string :=
  Py.Returned "All batches have been processed."%string.

(** The [for length, sorted_batch in sorted_batches.items()] loop: every
    chunk of every group is handed to the model in turn. *)
Fixpoint emit (groups : list (nat * list tokens)) (max_batch_size : Z)
  : Py.gen_result batch string :=
  match groups with
  | [] => {| Py.yielded := []; Py.finish := all_processed |}
  | (_, sorted_batch) :: rest =>
      match chunker sorted_batch max_batch_size with
      | inl e => {| Py.yielded := []; Py.finish := Py.Raised e |}
      | inr chunks => Py.gen_yield_all chunks (emit rest max_batch_size)
      end
  end.

(** The batches [predict_sorted_batches] passes to [batch_generate], in
    order, from the tokenizer's output. *)
Definition plan_of_sorted (sorted_tokens : list tokens) (max_batch_size : Z)
  : Py.gen_result batch string :=
  emit (Py.items (Bucketer.group sorted_tokens)) max_batch_size.

Definition batch_plan (tokenized_inputs : list tokens) (max_batch_size : Z)
  : Py.gen_result batch string :=
  plan_of_sorted (Py.sorted (@length Z) tokenized_inputs) max_batch_size.

Section Collaborators.
(** The tokenizer (with [padding=False, truncation=True, max_length=512])
    and the model behind [batch_generate] are external. *)
Variable tokenizer : list string -> list tokens.
Variable batch_generate : batch -> list string.

Definition predict_sorted_batches (prompts : list string) (max_batch_size : Z)
  : Py.gen_result (list string) string :=
  Py.gen_map batch_generate (batch_plan (tokenizer prompts) max_batch_size).
End Collaborators.

End Sorting.

(** ** [quantization.py]: token-budget policy *)

Module Quantization.

(** The inner [for batch in sorted_batch] loop, with the running
    [current_batch] and [current_batch_size].  Returns the batches yielded
    inside the loop and the [current_batch] left when the group ends. *)
Fixpoint pack_loop (max_size : nat) (sorted_batch : list tokens)
         (current_batch : batch) (current_batch_size : nat)
  : list batch * batch :=
  match sorted_batch with
  | [] => ([], current_batch)
  | b :: rest =>
      if max_size <? current_batch_size + length b then
        let (ys, last) := pack_loop max_size rest [b] (length b) in
        (current_batch :: ys, last)
      else
        pack_loop max_size rest (current_batch ++ [b]) (current_batch_size + length b)
  end.

(** One length group: the loop starts from an empty [current_batch], and
    [if current_batch:] yields what is left over. *)
Definition pack_group (max_size : nat) (sorted_batch : list tokens) : list batch :=
  let (ys, last) := pack_loop max_size sorted_batch [] 0 in
  ys ++ match last with [] => [] | _ :: _ => [last] end.

Definition pack (max_size : nat) (groups : list (nat * list tokens)) : list batch :=
  flat_map (fun g => pack_group max_size (snd g)) groups.

(** The budget is not an argument: it is [max(sorted_batches.keys())]. *)
Definition plan_of_sorted (sorted_tokens : list tokens) : Py.gen_result batch unit :=
  let sorted_batches := Bucketer.group sorted_tokens in
  match Py.max (Py.keys sorted_batches) with
  | inl e => {| Py.yielded := []; Py.finish := Py.Raised e |}
  | inr max_size =>
      {| Py.yielded := pack max_size (Py.items sorted_batches);
         Py.finish := Py.Returned tt |}
  end.

Definition batch_plan (tokenized_inputs : list tokens) : Py.gen_result batch unit :=
  plan_of_sorted (Py.sorted (@length Z) tokenized_inputs).

Section Collaborators.
Variable tokenizer : list string -> list tokens.
Variable batch_generate : batch -> list string.

Definition predict_sorted_batches (prompts : list string)
  : Py.gen_result (list string) unit :=
  Py.gen_map batch_generate (batch_plan (tokenizer prompts)).
End Collaborators.

End Quantization.

(** ** [track_time] (identical in both files)

<<
    @contextmanager
    def track_time():
        start = time.time()
        yield
        end = time.time()
        print(f"Execution time: {end - start:.2f}s")
>>

    The clock is read from the world; its readings are integers here (the
    unit is left open), the float arithmetic and the [.2f] formatting are
    not modelled.  What is modelled is the control flow of a generator
    wrapped by [contextlib.contextmanager] and used in a [with] statement. *)

Module Timing.

Inductive line : Type :=
| Execution_time (elapsed : Z).

Record world : Type := mk_world
  { now : Z;
    stdout : list line }.

(** [time.time()] *)
Definition time (w : world) : Z := now w.

(** [print(...)] *)
Definition print (l : line) (w : world) : world :=
  {| now := now w; stdout := stdout w ++ [l] |}.

(** The local variables of the generator. *)
Record locals : Type := mk_locals
  { start : Z;
    end_ : Z }.

Definition unbound : locals := {| start := 0; end_ := 0 |}.

(** A generator body without [try] blocks: straight-line statements and
    [yield]s. *)
Inductive stmt : Type :=
| Exec (f : locals -> world -> locals * world)
| Yield.

Definition track_time : list stmt :=
  [ Exec (fun l w => ({| start := time w; end_ := end_ l |}, w));
    Yield;
    Exec (fun l w => ({| start := start l; end_ := time w |}, w));
    Exec (fun l w => (l, print (Execution_time (end_ l - start l)) w)) ].

(** [next(gen)]: run up to the next [yield] ([Some rest]) or to the end of
    the body ([None], that is [StopIteration]). *)
Fixpoint resume (code : list stmt) (l : locals) (w : world)
  : option (list stmt) * locals * world :=
  match code with
  | [] => (None, l, w)
  | Yield :: rest => (Some rest, l, w)
  | Exec f :: rest => let (l', w') := f l w in resume rest l' w'
  end.

(** How the block under [with] ends. *)
Inductive outcome : Type :=
| Completed
| Left_early            (* [break], [return]: the consumer stops pulling *)
| Threw (e : Py.exn).

(** [with contextmanager(code)(): body].
    [__enter__] runs the generator to its [yield].  On a normal or early
    exit [__exit__] resumes it and expects it to finish.  On an exception
    [__exit__] throws it into the generator at the [yield]; as no [try]
    encloses the [yield], it leaves the generator at once and the [with]
    statement re-raises it. *)
Definition with_ (code : list stmt) (body : world -> outcome * world) (w : world)
  : outcome * world :=
  match resume code unbound w with
  | (None, _, w1) => (Threw Py.RuntimeError, w1)
  | (Some rest, l, w1) =>
      let (o, w2) := body w1 in
      match o with
      | Threw e => (Threw e, w2)
      | _ =>
          match resume rest l w2 with
          | (None, _, w3) => (o, w3)
          | (Some _, _, w3) => (Threw Py.RuntimeError, w3)
          end
      end
  end.

End Timing.

(** ** Tensors built from a batch

    Both generators turn a batch into [torch.tensor(batch)] before calling
    [batch_generate], which starts with

<<
    if tokens.ndim == 1:
        tokens = tokens.unsqueeze(0)
>>

    Of the tensor only the shape matters here. *)

Module Torch.

(** The shape of [torch.tensor(b)] for a list of lists of integers: an
    empty list gives a one-dimensional tensor of size 0, rows of one common
    length give a matrix, rows of different lengths raise [ValueError]. *)
Definition tensor_shape (b : batch) : Py.exn + list nat :=
  match b with
  | [] => inr [0]
  | r :: rest =>
      if forallb (fun x : tokens => length x =? length r) rest
      then inr [length b; length r]
      else inl Py.ValueError
  end.

(** [tokens.ndim] *)
Definition ndim (shape : list nat) : nat := length shape.

(** The shape [batch_generate] passes to [model.generate]: a vector gets a
    leading dimension of size 1. *)
Definition generate_shape (shape : list nat) : list nat :=
  if ndim shape =? 1 then 1 :: shape else shape.

End Torch.

(** ** [quantization.py]: [batch_generate_using_ctrans]

<<
    all_results = []
    for i in range(0, len(prompts), max_batch_size):
        batch = prompts[i : i + max_batch_size]
        inputs = [tokenizer.tokenize(prompt, ...) for prompt in batch]
        max_batch_size = max(len(input_tokens) for input_tokens in inputs)
        results = generator_model.generate_batch(inputs, ..., max_batch_size=max_batch_size, ...)
        results_ids = [res.sequences_ids[0] for res in results]
        all_results.extend(tokenizer.batch_decode(results_ids, ...))
    return all_results
>>

    The [range] is built once, from the [max_batch_size] the function was
    called with; the assignment in the loop body changes the width of the
    slices taken by the later iterations. *)

Module Ctrans.

(** [max_batch_size: int = 4] *)
Definition default_max_batch_size : Z := 4.

Section Collaborators.
(** [tokenizer.tokenize] returns the tokens of one prompt; the quantized
    model and [batch_decode] together turn the inputs of one call, with the
    [max_batch_size] they are given, into output strings. *)
Variable tokenize : string -> list string.
Variable generate : list (list string) -> nat -> list string.

(** The body of the loop, run over the positions of the [range].  Returns
    the arguments of the successive [generate_batch] calls. *)
Fixpoint loop (prompts : list string) (positions : list Z) (max_batch_size : Z)
  : Py.exn + list (list (list string) * nat) :=
  match positions with
  | [] => inr []
  | i :: rest =>
      let batch := Py.slice prompts i (i + max_batch_size) in
      let inputs := map tokenize batch in
      match Py.max (map (@length string) inputs) with
      | inl e => inl e
      | inr m =>
          match loop prompts rest (Z.of_nat m) with
          | inl e => inl e
          | inr calls => inr ((inputs, m) :: calls)
          end
      end
  end.

Definition model_calls (prompts : list string) (max_batch_size : Z)
  : Py.exn + list (list (list string) * nat) :=
  match Py.range 0 (Z.of_nat (length prompts)) max_batch_size with
  | inl e => inl e
  | inr positions => loop prompts positions max_batch_size
  end.

Definition batch_generate_using_ctrans (prompts : list string) (max_batch_size : Z)
  : Py.exn + list string :=
  match model_calls prompts max_batch_size with
  | inl e => inl e
  | inr calls => inr (flat_map (fun c => generate (fst c) (snd c)) calls)
  end.

End Collaborators.

(** The tokenized prompts sent to the model, call after call. *)
Definition inputs_sent (calls : list (list (list string) * nat)) : list (list string) :=
  concat (map fst calls).

End Ctrans.

(** ** Vocabulary of the properties *)

Definition key_le {A} (key : A -> nat) (x y : A) : Prop := key x <= key y.

(** What Python documents about [sorted]: the result is ordered by the key
    and, key by key, the elements come in their original order. *)
Definition stable_sort_of {A} (key : A -> nat) (l s : list A) : Prop :=
  StronglySorted (key_le key) s /\
  forall k, filter (fun x => key x =? k) s = filter (fun x => key x =? k) l.

(** A length group as the bucketer builds it: a positive length, at least
    one sequence, and only sequences of that length. *)
Definition group_ok (g : nat * list tokens) : Prop :=
  0 < fst g /\ snd g <> [] /\ Forall (fun t : tokens => length t = fst g) (snd g).

(** All the sequences of a list of groups, in order. *)
Definition members (d : list (nat * list tokens)) : list tokens :=
  concat (map snd d).

(** The number of chunks of size [m] that cover [n] items, and the [i]-th
    such chunk of a list. *)
Definition chunk_count (n m : nat) : nat :=
  match n with
  | 0 => 0
  | S p => S (p / m)
  end.

Definition nth_chunk {A} (m : nat) (l : list A) (i : nat) : list A :=
  firstn m (skipn (i * m) l).

(** The chunks of size [m] of a list, in order. *)
Definition chunks {A} (m : nat) (l : list A) : list (list A) :=
  map (nth_chunk m l) (seq 0 (chunk_count (length l) m)).

(** The budget invariant of a batch. *)
Definition within_budget (budget : nat) (b : batch) : Prop :=
  token_count b <= budget \/ item_count b = 1.

(** A non-empty batch whose sequences all have length [k]. *)
Definition uniform_batch (k : nat) (b : batch) : Prop :=
  b <> [] /\ Forall (fun t : tokens => length t = k) b.

(** ** The generators, pull by pull

    A generator runs only when its consumer pulls it, the consumer may stop
    pulling at any point, and what [batch_generate] returns is up to the
    model.  The runs of the two generators are given here by a relation:
    one [pull] takes the generator from a suspension point to the next
    [yield], or to its end.  The output of the model at each [yield] is
    arbitrary, and [sorted] is any sort that is stable for the length. *)

Module Gen.

(** What one pull of a generator makes visible: a batch handed to the model
    together with the output yielded for it, or the end of the generator. *)
Inductive event (R : Type) : Type :=
| Yielded (b : batch) (out : list string)
| Finished (f : Py.completion R).

Arguments Yielded {R} b out.
Arguments Finished {R} f.

(** The runs of a generator from a configuration: the batches and outputs
    seen so far, and the way the generator finished if the consumer pulled
    it to its end ([None] when the consumer stopped before). *)
Inductive run {config R : Type} (pull : config -> event R -> config -> Prop)
  : config -> list (batch * list string) -> option (Py.completion R) -> Prop :=
| run_stop : forall c, run pull c [] None
| run_yield : forall c b out c' tr o,
    pull c (Yielded b out) c' -> run pull c' tr o ->
    run pull c ((b, out) :: tr) o
| run_finish : forall c f c',
    pull c (Finished f) c' -> run pull c [] (Some f).

End Gen.

(** [sorting.py], [predict_sorted_batches]. *)

Module SortingRun.

Inductive config : Type :=
| Fresh (tokenized_inputs : list tokens) (max_batch_size : Z)
    (* created, body not started *)
| Suspended (chunks : list batch) (groups : list (nat * list tokens))
            (max_batch_size : Z)
    (* at the [yield]: the chunks left of the current group, the groups left *)
| Done.

(** From the head of the inner [for] loop to the next [yield] or to the end
    of the body. *)
Inductive resume (max_batch_size : Z)
  : list batch -> list (nat * list tokens) -> Gen.event string -> config -> Prop :=
| resume_yield : forall b chunks groups out,
    resume max_batch_size (b :: chunks) groups
           (Gen.Yielded b out) (Suspended chunks groups max_batch_size)
| resume_group : forall len sorted_batch groups chunks ev c,
    Sorting.chunker sorted_batch max_batch_size = inr chunks ->
    resume max_batch_size chunks groups ev c ->
    resume max_batch_size [] ((len, sorted_batch) :: groups) ev c
| resume_raise : forall len sorted_batch groups e,
    Sorting.chunker sorted_batch max_batch_size = inl e ->
    resume max_batch_size [] ((len, sorted_batch) :: groups)
           (Gen.Finished (Py.Raised e)) Done
| resume_return :
    resume max_batch_size [] [] (Gen.Finished Sorting.all_processed) Done.

Inductive pull : config -> Gen.event string -> config -> Prop :=
| pull_fresh : forall tokenized_inputs max_batch_size sorted_tokens ev c,
    stable_sort_of (@length Z) tokenized_inputs sorted_tokens ->
    resume max_batch_size [] (Py.items (Bucketer.group sorted_tokens)) ev c ->
    pull (Fresh tokenized_inputs max_batch_size) ev c
| pull_suspended : forall chunks groups max_batch_size ev c,
    resume max_batch_size chunks groups ev c ->
    pull (Suspended chunks groups max_batch_size) ev c.

(** The batches still to come from a configuration, and the way the
    generator will finish, as the functional model computes them. *)
Definition plan (c : config) : Py.gen_result batch string :=
  match c with
  | Fresh tokenized_inputs max_batch_size =>
      Sorting.batch_plan tokenized_inputs max_batch_size
  | Suspended chunks groups max_batch_size =>
      Py.gen_yield_all chunks (Sorting.emit groups max_batch_size)
  | Done => {| Py.yielded := []; Py.finish := Sorting.all_processed |}
  end.

End SortingRun.

(** [quantization.py], [predict_sorted_batches]. *)

Module QuantizationRun.

Inductive config : Type :=
| Fresh (tokenized_inputs : list tokens)
    (* created, body not started *)
| At_flush (max_size : nat) (b : tokens) (rest : list tokens)
           (groups : list (nat * list tokens))
    (* at the [yield] inside the inner loop, while handling [b] *)
| At_leftover (max_size : nat) (groups : list (nat * list tokens))
    (* at the [yield] under [if current_batch:] *)
| Done.

(** Where the body is between two [yield]s: at the head of the outer loop,
    or at the head of the inner loop with the running batch. *)
Inductive control : Type :=
| Groups (groups : list (nat * list tokens))
| Items (rest : list tokens) (current_batch : batch) (current_batch_size : nat)
        (groups : list (nat * list tokens)).

Inductive exec (max_size : nat) : control -> Gen.event unit -> config -> Prop :=
| exec_return :
    exec max_size (Groups []) (Gen.Finished (Py.Returned tt)) Done
| exec_group : forall len sorted_batch groups ev c,
    exec max_size (Items sorted_batch [] 0 groups) ev c ->
    exec max_size (Groups ((len, sorted_batch) :: groups)) ev c
| exec_flush : forall b rest current_batch current_batch_size groups out,
    max_size < current_batch_size + length b ->
    exec max_size (Items (b :: rest) current_batch current_batch_size groups)
         (Gen.Yielded current_batch out) (At_flush max_size b rest groups)
| exec_add : forall b rest current_batch current_batch_size groups ev c,
    current_batch_size + length b <= max_size ->
    exec max_size
         (Items rest (current_batch ++ [b]) (current_batch_size + length b) groups)
         ev c ->
    exec max_size (Items (b :: rest) current_batch current_batch_size groups) ev c
| exec_leftover : forall current_batch current_batch_size groups out,
    current_batch <> [] ->
    exec max_size (Items [] current_batch current_batch_size groups)
         (Gen.Yielded current_batch out) (At_leftover max_size groups)
| exec_no_leftover : forall current_batch_size groups ev c,
    exec max_size (Groups groups) ev c ->
    exec max_size (Items [] [] current_batch_size groups) ev c.

Inductive pull : config -> Gen.event unit -> config -> Prop :=
| pull_fresh_raise : forall tokenized_inputs sorted_tokens e,
    stable_sort_of (@length Z) tokenized_inputs sorted_tokens ->
    Py.max (Py.keys (Bucketer.group sorted_tokens)) = inl e ->
    pull (Fresh tokenized_inputs) (Gen.Finished (Py.Raised e)) Done
| pull_fresh : forall tokenized_inputs sorted_tokens max_size ev c,
    stable_sort_of (@length Z) tokenized_inputs sorted_tokens ->
    Py.max (Py.keys (Bucketer.group sorted_tokens)) = inr max_size ->
    exec max_size (Groups (Py.items (Bucketer.group sorted_tokens))) ev c ->
    pull (Fresh tokenized_inputs) ev c
| pull_flush : forall max_size b rest groups ev c,
    exec max_size (Items rest [b] (length b) groups) ev c ->
    pull (At_flush max_size b rest groups) ev c
| pull_leftover : forall max_size groups ev c,
    exec max_size (Groups groups) ev c ->
    pull (At_leftover max_size groups) ev c.

(** The batches still to come from a control point and from a
    configuration, as the functional model computes them. *)
Definition batches_from (max_size : nat) (k : control) : list batch :=
  match k with
  | Groups groups => Quantization.pack max_size groups
  | Items rest current_batch current_batch_size groups =>
      (let (ys, last) :=
         Quantization.pack_loop max_size rest current_batch current_batch_size in
       ys ++ match last with [] => [] | _ :: _ => [last] end)
      ++ Quantization.pack max_size groups
  end.

Definition plan (c : config) : Py.gen_result batch unit :=
  match c with
  | Fresh tokenized_inputs => Quantization.batch_plan tokenized_inputs
  | At_flush max_size b rest groups =>
      {| Py.yielded := batches_from max_size (Items rest [b] (length b) groups);
         Py.finish := Py.Returned tt |}
  | At_leftover max_size groups =>
      {| Py.yielded := batches_from max_size (Groups groups);
         Py.finish := Py.Returned tt |}
  | Done => {| Py.yielded := []; Py.finish := Py.Returned tt |}
  end.

(** A control point from which the body reaches its end or its next
    [yield], the model answering [model b] for the batch [b]. *)
Definition can_go (max_size : nat) (model : batch -> list string) (k : control) : Prop :=
  (exists f c', exec max_size k (Gen.Finished f) c') \/
  (exists b c', exec max_size k (Gen.Yielded b (model b)) c' /\ c' <> Done).

End QuantizationRun.

(** * Properties *)

(** ** Lists *)

Section ListFacts.
Context {A : Type}.

Lemma StronglySorted_app_iff (R : A -> A -> Prop) (l1 l2 : list A) :
  StronglySorted R (l1 ++ l2) <->
  StronglySorted R l1 /\ StronglySorted R l2 /\
  Forall (fun x => Forall (R x) l2) l1.
Proof.
  induction l1 as [| a l1 IH]; simpl.
  - split.
    + intros H. repeat split; auto. constructor.
    + intros (_ & H & _). exact H.
  - split.
    + intros H. inversion H as [| ? ? Hs Hf]; subst.
      apply IH in Hs. destruct Hs as (H1 & H2 & H3).
      apply Forall_app in Hf. destruct Hf as [Hf1 Hf2].
      repeat split; auto; constructor; auto.
    + intros (H1 & H2 & H3).
      inversion H1 as [| ? ? Hs Hf]; subst.
      inversion H3 as [| ? ? Ha Hr]; subst.
      constructor.
      * apply IH. auto.
      * apply Forall_app. auto.
Qed.

Lemma filter_perm (f : A -> bool) (l l' : list A) :
  Permutation l l' -> Permutation (filter f l) (filter f l').
Proof.
  induction 1 as [| x l l' _ IH | x y l | l l' l'' _ IH1 _ IH2]; simpl.
  - constructor.
  - destruct (f x); [now constructor | exact IH].
  - destruct (f x), (f y); try reflexivity. apply perm_swap.
  - now transitivity (filter f l').
Qed.

Lemma firstn_skipn_concat_step (m : nat) (l : list A) (i : nat) :
  skipn (S i * m) l = skipn (i * m) (skipn m l).
Proof.
  rewrite skipn_skipn. f_equal. simpl. lia.
Qed.

End ListFacts.

(** ** [sorted(..., key=...)] is the stable sort *)

Section SortedFacts.
Context {A : Type} (key : A -> nat).

Lemma insert_by_perm (x : A) (l : list A) :
  Permutation (Py.insert_by key x l) (x :: l).
Proof.
  induction l as [| y l IH]; simpl; [reflexivity|].
  destruct (key x <=? key y); [reflexivity|].
  rewrite IH. apply perm_swap.
Qed.

Lemma sorted_perm (l : list A) : Permutation (Py.sorted key l) l.
Proof.
  induction l as [| x l IH]; simpl; [reflexivity|].
  rewrite insert_by_perm. now constructor.
Qed.

Lemma insert_by_sorted (x : A) (l : list A) :
  StronglySorted (key_le key) l -> StronglySorted (key_le key) (Py.insert_by key x l).
Proof.
  induction 1 as [| y l Hs IH Hf]; simpl.
  - repeat constructor.
  - destruct (key x <=? key y) eqn:E.
    + apply Nat.leb_le in E.
      constructor; [constructor; assumption|].
      constructor; [exact E|].
      eapply Forall_impl; [|exact Hf].
      intros z Hz. unfold key_le in *. lia.
    + apply Nat.leb_gt in E.
      constructor; [exact IH|].
      eapply Permutation_Forall.
      * symmetry. apply insert_by_perm.
      * constructor; [unfold key_le; lia | exact Hf].
Qed.

Lemma sorted_sorted (l : list A) : StronglySorted (key_le key) (Py.sorted key l).
Proof.
  induction l as [| x l IH]; simpl; [constructor|].
  now apply insert_by_sorted.
Qed.

Lemma insert_by_filter (k : nat) (x : A) (l : list A) :
  filter (fun z => key z =? k) (Py.insert_by key x l) =
  filter (fun z => key z =? k) (x :: l).
Proof.
  induction l as [| y l IH]; [reflexivity|].
  simpl Py.insert_by.
  destruct (key x <=? key y) eqn:E; [reflexivity|].
  apply Nat.leb_gt in E.
  change (filter (fun z => key z =? k) (y :: Py.insert_by key x l))
    with (if key y =? k then y :: filter (fun z => key z =? k) (Py.insert_by key x l)
          else filter (fun z => key z =? k) (Py.insert_by key x l)).
  rewrite IH. simpl.
  destruct (key y =? k) eqn:Ey, (key x =? k) eqn:Ex; try reflexivity.
  apply Nat.eqb_eq in Ey, Ex. lia.
Qed.

Lemma sorted_stable (l : list A) (k : nat) :
  filter (fun x => key x =? k) (Py.sorted key l) = filter (fun x => key x =? k) l.
Proof.
  induction l as [| x l IH]; [reflexivity|].
  simpl Py.sorted. rewrite insert_by_filter. simpl. now rewrite IH.
Qed.

Lemma sorted_is_stable_sort (l : list A) : stable_sort_of key l (Py.sorted key l).
Proof.
  split; [apply sorted_sorted | intros k; apply sorted_stable].
Qed.

(** Two lists ordered by the key that agree key by key are equal. *)
Lemma key_sorted_ext (s1 s2 : list A) :
  StronglySorted (key_le key) s1 -> StronglySorted (key_le key) s2 ->
  (forall k, filter (fun x => key x =? k) s1 = filter (fun x => key x =? k) s2) ->
  s1 = s2.
Proof.
  intros H1. revert s2.
  induction H1 as [| x s1 Hs1 IH Hf1]; intros s2 H2 Heq.
  - destruct s2 as [| y s2]; [reflexivity|].
    specialize (Heq (key y)). simpl in Heq.
    rewrite Nat.eqb_refl in Heq. discriminate.
  - destruct s2 as [| y s2].
    + specialize (Heq (key x)). simpl in Heq.
      rewrite Nat.eqb_refl in Heq. discriminate.
    + inversion H2 as [| ? ? Hs2 Hf2]; subst.
      assert (Hk : key x = key y).
      { assert (Hx : In x (y :: s2)).
        { pose proof (Heq (key x)) as E. simpl in E.
          rewrite Nat.eqb_refl in E.
          assert (Hin : In x (filter (fun z => key z =? key x) (y :: s2))).
          { simpl. rewrite <- E. now left. }
          apply filter_In in Hin. tauto. }
        assert (Hy : In y (x :: s1)).
        { pose proof (Heq (key y)) as E. simpl in E.
          rewrite Nat.eqb_refl in E.
          assert (Hin : In y (filter (fun z => key z =? key y) (x :: s1))).
          { simpl. rewrite E. now left. }
          apply filter_In in Hin. tauto. }
        rewrite Forall_forall in Hf1, Hf2. unfold key_le in *.
        destruct Hx as [Hx | Hx]; [now subst|].
        destruct Hy as [Hy | Hy]; [now subst|].
        apply Hf1 in Hy. apply Hf2 in Hx. lia. }
      pose proof (Heq (key x)) as E. simpl in E.
      rewrite <- Hk, Nat.eqb_refl in E. injection E as Exy Et. subst y.
      f_equal. apply IH; [assumption|].
      intros k. specialize (Heq k). simpl in Heq.
      destruct (key x =? k); [now injection Heq | assumption].
Qed.

Lemma stable_sort_unique (l s1 s2 : list A) :
  stable_sort_of key l s1 -> stable_sort_of key l s2 -> s1 = s2.
Proof.
  intros [Hs1 Hf1] [Hs2 Hf2].
  apply key_sorted_ext; auto.
  intros k. now rewrite Hf1, Hf2.
Qed.

End SortedFacts.

(** ** The dictionary operations *)

Section DictFacts.
Context {V : Type}.

Lemma contains_In (k : nat) (d : Py.dict V) :
  Py.contains k d = true <-> In k (Py.keys d).
Proof.
  induction d as [| [k' v] d IH]; simpl.
  - split; [discriminate | tauto].
  - destruct (k =? k') eqn:E.
    + apply Nat.eqb_eq in E. subst. tauto.
    + apply Nat.eqb_neq in E. rewrite IH. split; [tauto|].
      intros [H | H]; [congruence | exact H].
Qed.

Lemma setitem_fresh (k : nat) (v : V) (d : Py.dict V) :
  Py.contains k d = false -> Py.setitem k v d = d ++ [(k, v)].
Proof.
  induction d as [| [k' v'] d IH]; simpl; [reflexivity|].
  destruct (k =? k'); [discriminate|].
  intros H. now rewrite IH.
Qed.

(** After [if k not in d: d[k] = v] the key is present. *)
Lemma contains_setitem (k : nat) (v : V) (d : Py.dict V) :
  Py.contains k (Py.setitem k v d) = true.
Proof.
  induction d as [| [k' v'] d IH]; simpl.
  - now rewrite Nat.eqb_refl.
  - destruct (k =? k') eqn:E; simpl; rewrite ?Nat.eqb_refl, ?E; auto.
Qed.

End DictFacts.

Lemma append_at_present {X} (k : nat) (x : X) (d : Py.dict (list X)) :
  Py.contains k d = true ->
  exists d1 xs d2,
    d = d1 ++ (k, xs) :: d2 /\ Py.append_at k x d = d1 ++ (k, xs ++ [x]) :: d2.
Proof.
  induction d as [| [k' xs] d IH]; simpl; [discriminate|].
  destruct (k =? k') eqn:E.
  - apply Nat.eqb_eq in E. subst k'. intros _.
    exists [], xs, d. split; reflexivity.
  - intros H. destruct (IH H) as (d1 & ys & d2 & -> & ->).
    exists ((k', xs) :: d1), ys, d2. split; reflexivity.
Qed.

Lemma append_at_last {X} (k : nat) (x : X) (xs : list X) (d : Py.dict (list X)) :
  Py.contains k d = false ->
  Py.append_at k x (d ++ [(k, xs)]) = d ++ [(k, xs ++ [x])].
Proof.
  induction d as [| [k' ys] d IH]; simpl.
  - now rewrite Nat.eqb_refl.
  - destruct (k =? k'); [discriminate|].
    intros H. now rewrite IH.
Qed.

(** ** The bucketer *)

(** The three ways one iteration of the grouping loop can go: the sequence
    is empty and skipped, it opens a new group at the end, or it joins the
    group of its length. *)
Lemma bucket_step_cases (d : Py.dict (list tokens)) (t : tokens) :
  (length t = 0 /\ Bucketer.bucket_step d t = d) \/
  (0 < length t /\ ~ In (length t) (Py.keys d) /\
   Bucketer.bucket_step d t = d ++ [(length t, [t])]) \/
  (0 < length t /\ exists d1 xs d2,
      d = d1 ++ (length t, xs) :: d2 /\
      Bucketer.bucket_step d t = d1 ++ (length t, xs ++ [t]) :: d2).
Proof.
  unfold Bucketer.bucket_step.
  destruct (length t =? 0) eqn:E0.
  - left. apply Nat.eqb_eq in E0. auto.
  - right. apply Nat.eqb_neq in E0.
    destruct (Py.contains (length t) d) eqn:Ec; simpl.
    + right. split; [lia|]. now apply append_at_present.
    + left. split; [lia|]. split.
      * rewrite <- contains_In, Ec. discriminate.
      * rewrite setitem_fresh by assumption.
        now rewrite append_at_last.
Qed.

Lemma members_app (d1 d2 : list (nat * list tokens)) :
  members (d1 ++ d2) = members d1 ++ members d2.
Proof.
  unfold members. now rewrite map_app, concat_app.
Qed.

Lemma bucket_step_ok (d : Py.dict (list tokens)) (t : tokens) :
  Forall group_ok d -> Forall group_ok (Bucketer.bucket_step d t).
Proof.
  intros Hd.
  destruct (bucket_step_cases d t)
    as [[_ ->] | [(Hpos & _ & ->) | (Hpos & d1 & xs & d2 & -> & ->)]].
  - exact Hd.
  - apply Forall_app. split; [exact Hd|].
    constructor; [|constructor].
    repeat split; simpl; auto. discriminate.
  - apply Forall_app in Hd. destruct Hd as [H1 H2].
    inversion H2 as [| ? ? (_ & _ & Hxs) H2']; subst.
    apply Forall_app. split; [exact H1|].
    constructor; [|exact H2'].
    repeat split; simpl in *; auto.
    + destruct xs; discriminate.
    + apply Forall_app. auto.
Qed.

Lemma bucket_step_perm (d : Py.dict (list tokens)) (t : tokens) :
  Permutation (members (Bucketer.bucket_step d t))
              (members d ++ filter nonempty [t]).
Proof.
  unfold nonempty. simpl.
  destruct (bucket_step_cases d t)
    as [[E ->] | [(Hpos & _ & ->) | (Hpos & d1 & xs & d2 & -> & ->)]].
  - rewrite E. simpl. now rewrite app_nil_r.
  - destruct (length t =? 0) eqn:E; [apply Nat.eqb_eq in E; lia|].
    simpl. rewrite members_app. reflexivity.
  - destruct (length t =? 0) eqn:E; [apply Nat.eqb_eq in E; lia|].
    simpl. rewrite !members_app. unfold members. simpl.
    rewrite <- !app_assoc.
    apply Permutation_app_head. apply Permutation_app_head.
    apply Permutation_cons_append.
Qed.

Lemma group_fold_ok (l : list tokens) (d : Py.dict (list tokens)) :
  Forall group_ok d -> Forall group_ok (fold_left Bucketer.bucket_step l d).
Proof.
  revert d. induction l as [| t l IH]; intros d Hd; simpl; [exact Hd|].
  apply IH. now apply bucket_step_ok.
Qed.

Lemma group_fold_perm (l : list tokens) (d : Py.dict (list tokens)) :
  Permutation (members (fold_left Bucketer.bucket_step l d))
              (members d ++ filter nonempty l).
Proof.
  revert d. induction l as [| t l IH]; intros d.
  - simpl. now rewrite app_nil_r.
  - simpl fold_left. rewrite IH, bucket_step_perm.
    rewrite <- app_assoc. apply Permutation_app_head.
    change (t :: l) with ([t] ++ l). now rewrite filter_app.
Qed.

(** Every group of the bucketer is well formed. *)
Lemma sorted_batches_ok (tokenized_inputs : list tokens) :
  Forall group_ok (Bucketer.sorted_batches tokenized_inputs).
Proof.
  apply group_fold_ok. constructor.
Qed.

(** The groups hold the non-empty inputs, each once. *)
Lemma sorted_batches_perm (tokenized_inputs : list tokens) :
  Permutation (members (Bucketer.sorted_batches tokenized_inputs))
              (filter nonempty tokenized_inputs).
Proof.
  unfold Bucketer.sorted_batches, Bucketer.group.
  rewrite group_fold_perm. simpl.
  apply filter_perm, sorted_perm.
Qed.

Lemma bucket_step_keys (d : Py.dict (list tokens)) (t : tokens) (k : nat) :
  In k (Py.keys (Bucketer.bucket_step d t)) -> In k (Py.keys d) \/ k = length t.
Proof.
  unfold Py.keys.
  destruct (bucket_step_cases d t)
    as [[_ ->] | [(_ & _ & ->) | (_ & d1 & xs & d2 & -> & ->)]].
  - auto.
  - rewrite map_app, in_app_iff. simpl. intuition.
  - rewrite !map_app. simpl. auto.
Qed.

(** On input sorted by length a sequence can only join the last group or
    open a new last one, so the keys stay strictly ascending and the groups,
    read in order, spell out the non-empty input in order. *)
Lemma bucket_step_ascending (d : Py.dict (list tokens)) (t : tokens) :
  StronglySorted lt (Py.keys d) ->
  (forall k, In k (Py.keys d) -> k <= length t) ->
  StronglySorted lt (Py.keys (Bucketer.bucket_step d t)) /\
  members (Bucketer.bucket_step d t) = members d ++ filter nonempty [t].
Proof.
  intros Hs Hle. unfold nonempty, Py.keys in *. simpl.
  destruct (bucket_step_cases d t)
    as [[E ->] | [(Hpos & Hnew & ->) | (Hpos & d1 & xs & d2 & -> & ->)]].
  - rewrite E. simpl. now rewrite app_nil_r.
  - destruct (length t =? 0) eqn:E; [apply Nat.eqb_eq in E; lia|].
    simpl. split; [|now rewrite members_app].
    rewrite map_app. simpl. apply StronglySorted_app_iff.
    split; [exact Hs|]. split; [repeat constructor|].
    apply Forall_forall. intros k Hk. constructor; [|constructor].
    specialize (Hle k Hk).
    assert (k <> length t) by (intros ->; now apply Hnew).
    lia.
  - destruct (length t =? 0) eqn:E; [apply Nat.eqb_eq in E; lia|].
    rewrite !map_app in *. simpl in *. split; [exact Hs|].
    assert (Hd2 : d2 = []).
    { apply StronglySorted_app_iff in Hs. destruct Hs as (_ & Hs & _).
      inversion Hs as [| ? ? _ Hgt]; subst.
      destruct d2 as [| [k ys] d2]; [reflexivity|].
      simpl in Hgt. inversion Hgt as [| ? ? Hk _]; subst.
      assert (k <= length t).
      { apply Hle. rewrite in_app_iff. simpl. auto. }
      lia. }
    subst d2. rewrite !members_app. unfold members. simpl.
    now rewrite !app_nil_r, <- !app_assoc.
Qed.

Lemma group_fold_sorted (l : list tokens) (d : Py.dict (list tokens)) :
  StronglySorted (key_le (@length Z)) l ->
  StronglySorted lt (Py.keys d) ->
  (forall k t, In k (Py.keys d) -> In t l -> k <= length t) ->
  StronglySorted lt (Py.keys (fold_left Bucketer.bucket_step l d)) /\
  members (fold_left Bucketer.bucket_step l d) = members d ++ filter nonempty l.
Proof.
  intros Hl. revert d.
  induction Hl as [| t l Hl IH Ht]; intros d Hs Hle.
  - simpl. now rewrite app_nil_r.
  - simpl fold_left.
    destruct (bucket_step_ascending d t Hs) as [Hs' Hm].
    { intros k Hk. apply Hle; simpl; auto. }
    destruct (IH _ Hs') as [Hs'' Hm'].
    { intros k t' Hk Ht'. apply bucket_step_keys in Hk.
      destruct Hk as [Hk | ->].
      - apply Hle; simpl; auto.
      - rewrite Forall_forall in Ht. now apply Ht. }
    split; [exact Hs''|].
    rewrite Hm', Hm, <- app_assoc.
    change (t :: l) with ([t] ++ l). now rewrite filter_app.
Qed.

(** The bucketer's keys come in strictly ascending order. *)
Lemma sorted_batches_ascending (tokenized_inputs : list tokens) :
  StronglySorted lt (Py.keys (Bucketer.sorted_batches tokenized_inputs)).
Proof.
  apply group_fold_sorted.
  - apply sorted_sorted.
  - constructor.
  - intros k t [].
Qed.

(** Read group after group, the bucketer's output is the sorted input
    without its empty sequences. *)
Lemma sorted_batches_members (tokenized_inputs : list tokens) :
  members (Bucketer.sorted_batches tokenized_inputs) =
  filter nonempty (Py.sorted (@length Z) tokenized_inputs).
Proof.
  unfold Bucketer.sorted_batches, Bucketer.group.
  destruct (group_fold_sorted (Py.sorted (@length Z) tokenized_inputs) []) as [_ H].
  - apply sorted_sorted.
  - constructor.
  - intros k t [].
  - exact H.
Qed.

(** ** [chunker] *)

Section ChunkFacts.
Context {A : Type}.

Lemma chunk_count_covers (n m : nat) : 0 < m -> n <= chunk_count n m * m.
Proof.
  intros Hm. destruct n as [| p]; simpl; [lia|].
  pose proof (Nat.div_mod_eq p m) as E.
  pose proof (Nat.mod_upper_bound p m) as U.
  nia.
Qed.

Lemma chunk_count_inside (n m i : nat) :
  0 < m -> i < chunk_count n m -> i * m < n.
Proof.
  intros Hm. destruct n as [| p]; simpl; [lia|].
  intros Hi.
  pose proof (Nat.Div0.mul_div_le p m) as L.
  nia.
Qed.

Lemma chunk_count_full (n m i : nat) :
  0 < m -> S i < chunk_count n m -> S i * m < n.
Proof.
  intros Hm Hi. apply chunk_count_inside; assumption.
Qed.

Lemma range_len_pos (n : nat) (m : Z) :
  (0 < m)%Z -> Py.range_len 0 (Z.of_nat n) m = chunk_count n (Z.to_nat m).
Proof.
  intros Hm. unfold Py.range_len.
  assert (E : (0 <? m)%Z = true) by now apply Z.ltb_lt.
  rewrite E. destruct n as [| p].
  - reflexivity.
  - assert (E' : (0 <? Z.of_nat (S p))%Z = true) by (apply Z.ltb_lt; lia).
    rewrite E'. unfold chunk_count.
    replace (Z.of_nat (S p) - 1 - 0)%Z with (Z.of_nat p) by lia.
    replace m with (Z.of_nat (Z.to_nat m)) at 1 by lia.
    rewrite <- Nat2Z.inj_div. lia.
Qed.

Lemma slice_chunk (l : list A) (m : Z) (i : nat) :
  (0 < m)%Z -> i * Z.to_nat m < length l ->
  Py.slice l (0 + Z.of_nat i * m) (0 + Z.of_nat i * m + m) =
  nth_chunk (Z.to_nat m) l i.
Proof.
  intros Hm Hi. unfold Py.slice, Py.slice_index, nth_chunk.
  set (n := length l) in *.
  assert (Ei : (0 + Z.of_nat i * m)%Z = Z.of_nat (i * Z.to_nat m)) by nia.
  rewrite Ei.
  assert (E1 : (Z.of_nat (i * Z.to_nat m) <? 0)%Z = false) by (apply Z.ltb_ge; lia).
  assert (E2 : (Z.of_nat (i * Z.to_nat m) + m <? 0)%Z = false) by (apply Z.ltb_ge; lia).
  rewrite E1, E2.
  rewrite (Z.min_l (Z.of_nat (i * Z.to_nat m))) by lia.
  rewrite Nat2Z.id.
  destruct (Z.le_ge_cases (Z.of_nat (i * Z.to_nat m) + m) (Z.of_nat n)) as [H | H].
  - rewrite Z.min_l by exact H. f_equal. lia.
  - rewrite Z.min_r by exact H.
    assert (L : length (skipn (i * Z.to_nat m) l) = n - i * Z.to_nat m)
      by apply length_skipn.
    rewrite !firstn_all2; [reflexivity | lia | lia].
Qed.

(** For a positive [max_size] the chunks are the consecutive windows of
    that width. *)
Lemma chunker_pos (sq : list A) (max_size : Z) :
  (0 < max_size)%Z ->
  Sorting.chunker sq max_size =
  inr (map (nth_chunk (Z.to_nat max_size) sq)
           (seq 0 (chunk_count (length sq) (Z.to_nat max_size)))).
Proof.
  intros Hm. unfold Sorting.chunker, Py.range.
  assert (E : (max_size =? 0)%Z = false) by (apply Z.eqb_neq; lia).
  rewrite E, range_len_pos by exact Hm.
  rewrite map_map. f_equal.
  apply map_ext_in. intros i Hi. apply in_seq in Hi.
  apply slice_chunk; [exact Hm|].
  apply chunk_count_inside; lia.
Qed.

(** A zero [max_size] raises, a negative one produces no chunk. *)
Lemma chunker_zero (sq : list A) : Sorting.chunker sq 0 = inl Py.ValueError.
Proof. reflexivity. Qed.

Lemma chunker_neg (sq : list A) (max_size : Z) :
  (max_size < 0)%Z -> Sorting.chunker sq max_size = inr [].
Proof.
  intros Hm. unfold Sorting.chunker, Py.range, Py.range_len.
  assert (E : (max_size =? 0)%Z = false) by (apply Z.eqb_neq; lia).
  assert (E1 : (0 <? max_size)%Z = false) by (apply Z.ltb_ge; lia).
  assert (E2 : (Z.of_nat (length sq) <? 0)%Z = false) by (apply Z.ltb_ge; lia).
  now rewrite E, E1, E2.
Qed.

Lemma chunks_concat (m k : nat) (l : list A) :
  length l <= k * m -> concat (map (nth_chunk m l) (seq 0 k)) = l.
Proof.
  revert l. induction k as [| k IH]; intros l Hl.
  - destruct l; [reflexivity | simpl in Hl; lia].
  - simpl seq. rewrite <- seq_shift. simpl. rewrite map_map.
    rewrite (map_ext (fun i => nth_chunk m l (S i)) (nth_chunk m (skipn m l))).
    + rewrite IH.
      * unfold nth_chunk. simpl. apply firstn_skipn.
      * rewrite length_skipn. lia.
    + intros i. unfold nth_chunk. now rewrite firstn_skipn_concat_step.
Qed.

Lemma length_nth_chunk (m : nat) (l : list A) (i : nat) :
  length (nth_chunk m l i) = Nat.min m (length l - i * m).
Proof.
  unfold nth_chunk. now rewrite length_firstn, length_skipn.
Qed.

End ChunkFacts.

Section ChunksFacts.
Context {A : Type}.

Lemma chunks_cover (m : nat) (l : list A) : 0 < m -> concat (chunks m l) = l.
Proof.
  intros Hm. apply chunks_concat. now apply chunk_count_covers.
Qed.

Lemma length_chunks (m : nat) (l : list A) :
  length (chunks m l) = chunk_count (length l) m.
Proof.
  unfold chunks. now rewrite length_map, length_seq.
Qed.

Lemma nth_chunks (m : nat) (l : list A) (i : nat) :
  i < chunk_count (length l) m -> nth i (chunks m l) [] = nth_chunk m l i.
Proof.
  intros Hi. unfold chunks.
  rewrite (nth_indep _ [] (nth_chunk m l 0)) by now rewrite length_map, length_seq.
  rewrite (map_nth (nth_chunk m l)). now rewrite seq_nth.
Qed.

Lemma chunks_sizes (m : nat) (l : list A) :
  0 < m -> Forall (fun c => 1 <= length c <= m) (chunks m l).
Proof.
  intros Hm. apply Forall_forall. intros c Hc.
  unfold chunks in Hc. apply in_map_iff in Hc.
  destruct Hc as (i & <- & Hi). apply in_seq in Hi.
  rewrite length_nth_chunk.
  assert (i * m < length l) by (apply chunk_count_inside; lia).
  lia.
Qed.

Lemma chunks_full (m : nat) (l : list A) (i : nat) :
  0 < m -> S i < length (chunks m l) -> length (nth i (chunks m l) []) = m.
Proof.
  intros Hm Hi. rewrite length_chunks in Hi.
  rewrite nth_chunks by lia. rewrite length_nth_chunk.
  pose proof (chunk_count_full (length l) m i Hm Hi). simpl in H. lia.
Qed.

Lemma chunks_incl (m : nat) (l c : list A) (x : A) :
  0 < m -> In c (chunks m l) -> In x c -> In x l.
Proof.
  intros Hm Hc Hx. rewrite <- (chunks_cover m l Hm).
  apply in_concat. eauto.
Qed.

End ChunksFacts.

(** ** The fixed-count generator *)

Lemma emit_pos (groups : list (nat * list tokens)) (max_batch_size : Z) :
  (0 < max_batch_size)%Z ->
  Sorting.emit groups max_batch_size =
  {| Py.yielded := flat_map (fun g => chunks (Z.to_nat max_batch_size) (snd g)) groups;
     Py.finish := Sorting.all_processed |}.
Proof.
  intros Hm. induction groups as [| [k g] groups IH]; simpl; [reflexivity|].
  rewrite chunker_pos by exact Hm. rewrite IH. reflexivity.
Qed.

Lemma emit_neg (groups : list (nat * list tokens)) (max_batch_size : Z) :
  (max_batch_size < 0)%Z ->
  Sorting.emit groups max_batch_size =
  {| Py.yielded := []; Py.finish := Sorting.all_processed |}.
Proof.
  intros Hm. induction groups as [| [k g] groups IH]; simpl; [reflexivity|].
  rewrite chunker_neg by exact Hm. rewrite IH. reflexivity.
Qed.

Lemma emit_zero (groups : list (nat * list tokens)) :
  Sorting.emit groups 0 =
  {| Py.yielded := [];
     Py.finish := match groups with
                  | [] => Sorting.all_processed
                  | _ :: _ => Py.Raised Py.ValueError
                  end |}.
Proof.
  destruct groups as [| [k g] groups]; reflexivity.
Qed.

(** ** The token-budget packer *)

Lemma token_count_app (b1 b2 : batch) :
  token_count (b1 ++ b2) = token_count b1 + token_count b2.
Proof.
  unfold token_count. now rewrite map_app, list_sum_app.
Qed.

Lemma token_count_single (t : tokens) : token_count [t] = length t.
Proof.
  unfold token_count. simpl. lia.
Qed.

(** Nothing is lost or reordered by the inner loop: the batches it yields,
    followed by the batch it leaves, are the batch it started with followed
    by the group. *)
Lemma pack_loop_concat (max_size : nat) (g : list tokens) :
  forall (cb : batch) (sz : nat),
    concat (fst (Quantization.pack_loop max_size g cb sz)) ++
    snd (Quantization.pack_loop max_size g cb sz) = cb ++ g.
Proof.
  induction g as [| b g IH]; intros cb sz; simpl.
  - now rewrite app_nil_r.
  - destruct (max_size <? sz + length b).
    + specialize (IH [b] (length b)).
      destruct (Quantization.pack_loop max_size g [b] (length b)) as [ys last].
      simpl in *. now rewrite <- app_assoc, IH.
    + rewrite IH, <- app_assoc. reflexivity.
Qed.

Lemma pack_group_concat (max_size : nat) (g : list tokens) :
  concat (Quantization.pack_group max_size g) = g.
Proof.
  unfold Quantization.pack_group.
  pose proof (pack_loop_concat max_size g [] 0) as H.
  destruct (Quantization.pack_loop max_size g [] 0) as [ys last].
  simpl in H. rewrite concat_app, <- H.
  destruct last; simpl; now rewrite ?app_nil_r.
Qed.

Lemma pack_concat (max_size : nat) (groups : list (nat * list tokens)) :
  concat (Quantization.pack max_size groups) = members groups.
Proof.
  unfold Quantization.pack, members.
  induction groups as [| g groups IH]; simpl; [reflexivity|].
  now rewrite concat_app, pack_group_concat, IH.
Qed.

(** The budget invariant of the inner loop. *)
Lemma pack_loop_budget (max_size : nat) (g : list tokens) :
  forall (cb : batch) (sz : nat),
    sz = token_count cb ->
    within_budget max_size cb ->
    Forall (within_budget max_size) (fst (Quantization.pack_loop max_size g cb sz)) /\
    within_budget max_size (snd (Quantization.pack_loop max_size g cb sz)).
Proof.
  induction g as [| b g IH]; intros cb sz Hsz Hcb; simpl.
  - split; [constructor | exact Hcb].
  - destruct (max_size <? sz + length b) eqn:E.
    + destruct (IH [b] (length b)) as [H1 H2].
      * now rewrite token_count_single.
      * right. reflexivity.
      * destruct (Quantization.pack_loop max_size g [b] (length b)) as [ys last].
        simpl in *. split; [constructor; assumption | assumption].
    + apply Nat.ltb_ge in E. apply IH.
      * rewrite token_count_app, token_count_single. lia.
      * left. rewrite token_count_app, token_count_single. lia.
Qed.

Lemma pack_group_budget (max_size : nat) (g : list tokens) :
  Forall (within_budget max_size) (Quantization.pack_group max_size g).
Proof.
  unfold Quantization.pack_group.
  destruct (pack_loop_budget max_size g [] 0) as [H1 H2].
  - reflexivity.
  - left. unfold token_count. simpl. lia.
  - destruct (Quantization.pack_loop max_size g [] 0) as [ys last].
    simpl in *. apply Forall_app. split; [exact H1|].
    destruct last as [| t last]; [constructor | constructor; [exact H2 | constructor]].
Qed.

Lemma pack_budget (max_size : nat) (groups : list (nat * list tokens)) :
  Forall (within_budget max_size) (Quantization.pack max_size groups).
Proof.
  unfold Quantization.pack.
  induction groups as [| g groups IH]; simpl; [constructor|].
  apply Forall_app. split; [apply pack_group_budget | exact IH].
Qed.

(** When no sequence of the group is longer than the budget, the loop never
    flushes an empty batch. *)
Lemma pack_loop_nonempty (max_size : nat) (g : list tokens) :
  Forall (fun t => length t <= max_size) g ->
  forall (cb : batch) (sz : nat),
    sz = token_count cb ->
    Forall (fun y => y <> []) (fst (Quantization.pack_loop max_size g cb sz)).
Proof.
  induction g as [| b g IH]; intros Hall cb sz Hsz; simpl.
  - constructor.
  - apply Forall_cons_iff in Hall. destruct Hall as [Hb Hg].
    specialize (IH Hg).
    destruct (max_size <? sz + length b) eqn:E.
    + specialize (IH [b] (length b)).
      destruct (Quantization.pack_loop max_size g [b] (length b)) as [ys last].
      simpl in *. constructor.
      * apply Nat.ltb_lt in E. intros ->.
        unfold token_count in Hsz. simpl in Hsz. lia.
      * apply IH. now rewrite token_count_single.
    + apply IH. rewrite token_count_app, token_count_single. lia.
Qed.

Lemma pack_group_nonempty (max_size : nat) (g : list tokens) :
  Forall (fun t => length t <= max_size) g ->
  Forall (fun y => y <> []) (Quantization.pack_group max_size g).
Proof.
  intros Hg. unfold Quantization.pack_group.
  pose proof (pack_loop_nonempty max_size g Hg [] 0 eq_refl) as H.
  destruct (Quantization.pack_loop max_size g [] 0) as [ys last].
  simpl in H. apply Forall_app. split; [exact H|].
  destruct last as [| t last]; [constructor | constructor; [discriminate | constructor]].
Qed.

(** [max] returns an upper bound that is one of the elements. *)
Lemma fold_max_bound (r : list nat) :
  forall x, x <= fold_left Nat.max r x /\
            Forall (fun k => k <= fold_left Nat.max r x) r /\
            In (fold_left Nat.max r x) (x :: r).
Proof.
  induction r as [| y r IH]; intros x; simpl.
  - repeat split; auto.
  - destruct (IH (Nat.max x y)) as (H1 & H2 & H3).
    split; [lia|]. split.
    + constructor; [lia | exact H2].
    + simpl in H3. destruct H3 as [H3 | H3]; [|auto].
      rewrite <- H3.
      destruct (Nat.max_spec x y) as [[_ E] | [_ E]]; rewrite E; auto.
Qed.

Lemma max_spec (l : list nat) (m : nat) :
  Py.max l = inr m -> In m l /\ Forall (fun k => k <= m) l.
Proof.
  destruct l as [| x r]; simpl; [discriminate|].
  intros E. injection E as <-.
  destruct (fold_max_bound r x) as (H1 & H2 & H3).
  split; [exact H3 | constructor; assumption].
Qed.

Lemma max_empty (l : list nat) (e : Py.exn) :
  Py.max l = inl e -> l = [] /\ e = Py.ValueError.
Proof.
  destruct l; simpl; [|discriminate].
  intros E. injection E as <-. auto.
Qed.

(** ** Batches cut out of length groups *)

Lemma min_length_uniform (k : nat) (b : batch) :
  uniform_batch k b -> min_length b = k.
Proof.
  intros [Hne Hall]. destruct b as [| x r]; [congruence|].
  apply Forall_cons_iff in Hall. destruct Hall as [Hx Hr].
  simpl. rewrite Hx. clear Hne Hx x.
  induction r as [| y r IH]; simpl; [reflexivity|].
  apply Forall_cons_iff in Hr. destruct Hr as [Hy Hr].
  rewrite Hy, Nat.min_id. now apply IH.
Qed.

Section SplitGroups.
(** [split] is either policy applied to one group: it cuts the group into
    non-empty consecutive pieces. *)
Variable split : list tokens -> list batch.
Variable groups : list (nat * list tokens).
Hypothesis groups_ok : Forall group_ok groups.
Hypothesis split_concat :
  forall g, In g groups -> concat (split (snd g)) = snd g.
Hypothesis split_nonempty :
  forall g, In g groups -> Forall (fun b => b <> []) (split (snd g)).

Lemma split_uniform (g : nat * list tokens) :
  In g groups -> Forall (uniform_batch (fst g)) (split (snd g)).
Proof.
  intros Hg. apply Forall_forall. intros b Hb.
  pose proof (split_nonempty g Hg) as Hne.
  rewrite Forall_forall in Hne. split; [now apply Hne|].
  rewrite Forall_forall in groups_ok.
  destruct (groups_ok g Hg) as (_ & _ & Hlen).
  rewrite Forall_forall in Hlen |- *.
  intros t Ht. apply Hlen. rewrite <- (split_concat g Hg).
  apply in_concat. eauto.
Qed.

Lemma split_all_uniform (b : batch) :
  In b (flat_map (fun g => split (snd g)) groups) ->
  exists g, In g groups /\ In b (split (snd g)) /\ uniform_batch (fst g) b.
Proof.
  intros Hb. apply in_flat_map in Hb. destruct Hb as (g & Hg & Hb).
  exists g. repeat split; auto.
  - pose proof (split_uniform g Hg) as H. rewrite Forall_forall in H.
    now apply H.
  - pose proof (split_uniform g Hg) as H. rewrite Forall_forall in H.
    now apply H.
Qed.

Lemma split_positive (b : batch) :
  In b (flat_map (fun g => split (snd g)) groups) ->
  Forall (fun t : tokens => length t <> 0) b.
Proof.
  intros Hb. destruct (split_all_uniform b Hb) as (g & Hg & _ & _ & Hlen).
  rewrite Forall_forall in groups_ok.
  destruct (groups_ok g Hg) as (Hpos & _).
  eapply Forall_impl; [|exact Hlen]. simpl. intros t Ht. lia.
Qed.

Lemma split_members :
  concat (flat_map (fun g => split (snd g)) groups) = members groups.
Proof.
  unfold members. clear groups_ok split_nonempty.
  induction groups as [| g gs IH]; simpl; [reflexivity|].
  rewrite concat_app, split_concat by (simpl; auto).
  rewrite IH; [reflexivity|].
  intros g' Hg'. apply split_concat. simpl. auto.
Qed.

End SplitGroups.

(** With strictly ascending keys the batches come in non-decreasing order of
    their smallest sequence length. *)
Lemma split_sorted (split : list tokens -> list batch)
      (groups : list (nat * list tokens)) :
  StronglySorted lt (map fst groups) ->
  (forall g, In g groups -> Forall (uniform_batch (fst g)) (split (snd g))) ->
  StronglySorted le (map min_length (flat_map (fun g => split (snd g)) groups)).
Proof.
  induction groups as [| g gs IH]; intros Hs Hu; simpl; [constructor|].
  inversion Hs as [| ? ? Hs' Hlt]; subst.
  assert (Hg : Forall (fun n => n = fst g) (map min_length (split (snd g)))).
  { apply Forall_forall. intros n Hn. apply in_map_iff in Hn.
    destruct Hn as (b & <- & Hb).
    specialize (Hu g (or_introl eq_refl)). rewrite Forall_forall in Hu.
    apply min_length_uniform. now apply Hu. }
  assert (Hrest : Forall (fun n => fst g < n)
                         (map min_length (flat_map (fun g => split (snd g)) gs))).
  { apply Forall_forall. intros n Hn. apply in_map_iff in Hn.
    destruct Hn as (b & <- & Hb). apply in_flat_map in Hb.
    destruct Hb as (g' & Hg' & Hb).
    assert (Hug' : Forall (uniform_batch (fst g')) (split (snd g')))
      by (apply Hu; simpl; auto).
    rewrite Forall_forall in Hug'.
    rewrite (min_length_uniform (fst g') b) by now apply Hug'.
    rewrite Forall_forall in Hlt. apply Hlt. now apply in_map. }
  rewrite map_app. apply StronglySorted_app_iff. split; [|split].
  - clear - Hg. induction Hg as [| n l Hn Hl IHl]; constructor; auto.
    subst n. eapply Forall_impl; [|exact Hl]. intros a ->. constructor.
  - apply IH; [exact Hs'|]. intros g' Hg'. apply Hu. simpl. auto.
  - eapply Forall_impl; [|exact Hg]. intros n ->.
    eapply Forall_impl; [|exact Hrest]. intros a Ha. cbv beta in Ha. lia.
Qed.

(** ** The two plans *)

Lemma sorting_plan_pos (tokenized_inputs : list tokens) (max_batch_size : Z) :
  (0 < max_batch_size)%Z ->
  Sorting.batch_plan tokenized_inputs max_batch_size =
  {| Py.yielded := flat_map (fun g => chunks (Z.to_nat max_batch_size) (snd g))
                            (Bucketer.sorted_batches tokenized_inputs);
     Py.finish := Sorting.all_processed |}.
Proof.
  intros Hm. unfold Sorting.batch_plan, Sorting.plan_of_sorted.
  now rewrite emit_pos.
Qed.

Lemma sorting_plan_neg (tokenized_inputs : list tokens) (max_batch_size : Z) :
  (max_batch_size < 0)%Z ->
  Sorting.batch_plan tokenized_inputs max_batch_size =
  {| Py.yielded := []; Py.finish := Sorting.all_processed |}.
Proof.
  intros Hm. unfold Sorting.batch_plan, Sorting.plan_of_sorted.
  now rewrite emit_neg.
Qed.

Lemma sorting_plan_zero (tokenized_inputs : list tokens) :
  Sorting.batch_plan tokenized_inputs 0 =
  {| Py.yielded := [];
     Py.finish := match Bucketer.sorted_batches tokenized_inputs with
                  | [] => Sorting.all_processed
                  | _ :: _ => Py.Raised Py.ValueError
                  end |}.
Proof.
  unfold Sorting.batch_plan, Sorting.plan_of_sorted. now rewrite emit_zero.
Qed.

(** Without a positive [max_batch_size] no batch is ever yielded. *)
Lemma sorting_plan_nonpos (tokenized_inputs : list tokens) (max_batch_size : Z) :
  (max_batch_size <= 0)%Z ->
  Py.yielded (Sorting.batch_plan tokenized_inputs max_batch_size) = [].
Proof.
  intros Hm. destruct (Z.eq_dec max_batch_size 0) as [-> | Hne].
  - now rewrite sorting_plan_zero.
  - rewrite sorting_plan_neg by lia. reflexivity.
Qed.

(** The groups are empty exactly when the input has no non-empty sequence. *)
Lemma sorted_batches_nil (tokenized_inputs : list tokens) :
  Bucketer.sorted_batches tokenized_inputs = [] <->
  filter nonempty tokenized_inputs = [].
Proof.
  pose proof (sorted_batches_perm tokenized_inputs) as P.
  pose proof (sorted_batches_ok tokenized_inputs) as Hok.
  split; intros H.
  - rewrite H in P. apply Permutation_nil in P. exact P.
  - rewrite H in P. apply Permutation_sym, Permutation_nil in P.
    destruct (Bucketer.sorted_batches tokenized_inputs) as [| [k g] d];
      [reflexivity|].
    apply Forall_cons_iff in Hok. destruct Hok as [(_ & Hne & _) _].
    simpl in Hne. unfold members in P. simpl in P.
    destruct g; [congruence | discriminate].
Qed.

(** The token-budget generator either finds no group and raises at [max],
    or packs every group under the largest length. *)
Lemma quantization_plan_cases (tokenized_inputs : list tokens) :
  (Bucketer.sorted_batches tokenized_inputs = [] /\
   Quantization.batch_plan tokenized_inputs =
   {| Py.yielded := []; Py.finish := Py.Raised Py.ValueError |}) \/
  (exists max_size,
      Py.max (Py.keys (Bucketer.sorted_batches tokenized_inputs)) = inr max_size /\
      Quantization.batch_plan tokenized_inputs =
      {| Py.yielded := Quantization.pack max_size (Bucketer.sorted_batches tokenized_inputs);
         Py.finish := Py.Returned tt |}).
Proof.
  unfold Quantization.batch_plan, Quantization.plan_of_sorted.
  fold (Bucketer.sorted_batches tokenized_inputs).
  destruct (Py.max (Py.keys (Bucketer.sorted_batches tokenized_inputs)))
    as [e | max_size] eqn:E.
  - left. apply max_empty in E. destruct E as [E ->].
    split; [|reflexivity].
    destruct (Bucketer.sorted_batches tokenized_inputs); [reflexivity | discriminate].
  - right. exists max_size. split; reflexivity.
Qed.

Lemma group_fits_max (groups : list (nat * list tokens)) (max_size : nat)
      (g : nat * list tokens) :
  Forall group_ok groups ->
  Py.max (Py.keys groups) = inr max_size ->
  In g groups ->
  Forall (fun t : tokens => length t <= max_size) (snd g).
Proof.
  intros Hok Hmax Hg. apply max_spec in Hmax. destruct Hmax as [_ Hle].
  rewrite Forall_forall in Hok, Hle.
  destruct (Hok g Hg) as (_ & _ & Hlen).
  assert (fst g <= max_size) by (apply Hle; unfold Py.keys; now apply in_map).
  eapply Forall_impl; [|exact Hlen]. intros t Ht. cbv beta in Ht. lia.
Qed.

Lemma StronglySorted_lt_NoDup (l : list nat) : StronglySorted lt l -> NoDup l.
Proof.
  induction 1 as [| x l Hs IH Hx]; constructor; [|exact IH].
  intros Hin. rewrite Forall_forall in Hx. specialize (Hx x Hin). lia.
Qed.

Section PlanFacts.
Variable tokenized_inputs : list tokens.

Lemma chunks_split_nonempty (m : nat) (g : nat * list tokens) :
  0 < m -> Forall (fun b : batch => b <> []) (chunks m (snd g)).
Proof.
  intros Hm. eapply Forall_impl; [|apply (chunks_sizes m (snd g) Hm)].
  intros c Hc. cbv beta in Hc. destruct c; simpl in Hc; [lia | discriminate].
Qed.

Lemma sorting_batches_uniform (max_batch_size : Z) (b : batch) :
  (0 < max_batch_size)%Z ->
  In b (Py.yielded (Sorting.batch_plan tokenized_inputs max_batch_size)) ->
  exists g, In g (Bucketer.sorted_batches tokenized_inputs) /\
            In b (chunks (Z.to_nat max_batch_size) (snd g)) /\
            uniform_batch (fst g) b.
Proof.
  intros Hm Hb. rewrite sorting_plan_pos in Hb by exact Hm. simpl in Hb.
  apply (split_all_uniform (chunks (Z.to_nat max_batch_size)) (Bucketer.sorted_batches tokenized_inputs)); auto.
  - apply sorted_batches_ok.
  - intros g _. apply chunks_cover. lia.
  - intros g _. apply chunks_split_nonempty. lia.
Qed.

Lemma sorting_batches_members (max_batch_size : Z) :
  (0 < max_batch_size)%Z ->
  concat (Py.yielded (Sorting.batch_plan tokenized_inputs max_batch_size)) =
  members (Bucketer.sorted_batches tokenized_inputs).
Proof.
  intros Hm. rewrite sorting_plan_pos by exact Hm. simpl.
  apply (split_members (chunks (Z.to_nat max_batch_size)) (Bucketer.sorted_batches tokenized_inputs)).
  intros g _. apply chunks_cover. lia.
Qed.

Lemma quantization_batches_uniform (max_size : nat) (b : batch) :
  Py.max (Py.keys (Bucketer.sorted_batches tokenized_inputs)) = inr max_size ->
  In b (Quantization.pack max_size (Bucketer.sorted_batches tokenized_inputs)) ->
  exists g, In g (Bucketer.sorted_batches tokenized_inputs) /\
            In b (Quantization.pack_group max_size (snd g)) /\
            uniform_batch (fst g) b.
Proof.
  intros Hmax Hb.
  apply (split_all_uniform (Quantization.pack_group max_size) (Bucketer.sorted_batches tokenized_inputs)); auto.
  - apply sorted_batches_ok.
  - intros g _. apply pack_group_concat.
  - intros g Hg. apply pack_group_nonempty.
    apply (group_fits_max (Bucketer.sorted_batches tokenized_inputs)); auto. apply sorted_batches_ok.
Qed.

Lemma quantization_batches_members :
  concat (Py.yielded (Quantization.batch_plan tokenized_inputs)) = members (Bucketer.sorted_batches tokenized_inputs).
Proof.
  destruct (quantization_plan_cases tokenized_inputs)
    as [[E ->] | (max_size & _ & ->)]; simpl.
  - now rewrite E.
  - apply pack_concat.
Qed.

End PlanFacts.

(** * The claims *)

(** C1 fails as stated: with [max_batch_size = -1] the fixed-count
    generator yields no batch, so the two non-empty sequences of the input
    appear in none. *)
Lemma negative_batch_size_loses_sequences :
  Py.yielded (Sorting.batch_plan [[1; 2]; [3]]%Z (-1)) = [] /\
  ~ Permutation
      (concat (Py.yielded (Sorting.batch_plan [[1; 2]; [3]]%Z (-1))))
      (filter nonempty [[1; 2]; [3]]%Z).
Proof.
  split; [reflexivity|].
  intros H. vm_compute in H. apply Permutation_nil in H. discriminate.
Qed.

(** C1, amended.  With a positive [max_batch_size], the sequences of the
    batches of the fixed-count generator are, counted with multiplicity,
    the non-empty input sequences, and no batch holds an empty sequence;
    the same holds for the batches of the token-budget generator, which
    has no such parameter. *)
Theorem batches_partition_nonempty_inputs
        (tokenized_inputs : list tokens) (max_batch_size : Z) :
  (1 <= max_batch_size)%Z ->
  (Permutation
     (concat (Py.yielded (Sorting.batch_plan tokenized_inputs max_batch_size)))
     (filter nonempty tokenized_inputs) /\
   Forall (Forall (fun t : tokens => length t <> 0))
          (Py.yielded (Sorting.batch_plan tokenized_inputs max_batch_size))) /\
  (Permutation
     (concat (Py.yielded (Quantization.batch_plan tokenized_inputs)))
     (filter nonempty tokenized_inputs) /\
   Forall (Forall (fun t : tokens => length t <> 0))
          (Py.yielded (Quantization.batch_plan tokenized_inputs))).
Proof.
  intros Hm.
  pose proof (sorted_batches_ok tokenized_inputs) as Hok.
  assert (Hpos : forall k b, 0 < k -> uniform_batch k b ->
                             Forall (fun t : tokens => length t <> 0) b).
  { intros k b Hk [_ Hb]. eapply Forall_impl; [|exact Hb].
    intros t Ht. cbv beta in Ht. lia. }
  assert (Hkey : forall g, In g (Bucketer.sorted_batches tokenized_inputs) ->
                           0 < fst g).
  { intros g Hg. rewrite Forall_forall in Hok. now destruct (Hok g Hg). }
  split; split.
  - rewrite sorting_batches_members by lia. apply sorted_batches_perm.
  - apply Forall_forall. intros b Hb.
    destruct (sorting_batches_uniform tokenized_inputs max_batch_size b)
      as (g & Hg & _ & Hu); [lia | exact Hb |].
    apply (Hpos (fst g)); auto.
  - rewrite quantization_batches_members. apply sorted_batches_perm.
  - apply Forall_forall. intros b Hb.
    destruct (quantization_plan_cases tokenized_inputs)
      as [[_ E] | (max_size & Hmax & E)]; rewrite E in Hb; simpl in Hb.
    + contradiction.
    + destruct (quantization_batches_uniform tokenized_inputs max_size b Hmax Hb)
        as (g & Hg & _ & Hu).
      apply (Hpos (fst g)); auto.
Qed.

Lemma batches_partition_nonempty_inputs_witness :
  (1 <= 2)%Z /\
  Permutation
    (concat (Py.yielded (Sorting.batch_plan [[5; 6; 7]; []; [1]; [8; 9; 10]; [2]; [3]]%Z 2)))
    [[5; 6; 7]; [1]; [8; 9; 10]; [2]; [3]]%Z.
Proof.
  split; [lia|].
  apply (batches_partition_nonempty_inputs
           [[5; 6; 7]; []; [1]; [8; 9; 10]; [2]; [3]]%Z 2). lia.
Defined.

(** C2.  Every batch of the token-budget generator keeps its token count
    within the budget, which is the largest sequence length of the input,
    or holds exactly one sequence. *)
Theorem token_budget_invariant
        (tokenized_inputs : list tokens) (max_size : nat) (b : batch) :
  Py.max (Py.keys (Bucketer.sorted_batches tokenized_inputs)) = inr max_size ->
  In b (Py.yielded (Quantization.batch_plan tokenized_inputs)) ->
  token_count b <= max_size \/ item_count b = 1.
Proof.
  intros Hmax Hb.
  destruct (quantization_plan_cases tokenized_inputs)
    as [[E _] | (m & Hm & E)].
  - rewrite E in Hmax. discriminate.
  - rewrite Hmax in Hm. injection Hm as <-.
    rewrite E in Hb. simpl in Hb.
    pose proof (pack_budget max_size (Bucketer.sorted_batches tokenized_inputs)) as H.
    rewrite Forall_forall in H. exact (H b Hb).
Qed.

Lemma token_budget_invariant_witness :
  token_count [[1; 2; 3]; [4; 5; 6]]%Z <= 6 \/ item_count [[1; 2; 3]; [4; 5; 6]]%Z = 1.
Proof.
  apply (token_budget_invariant
           [[1; 2; 3]; [7]; [4; 5; 6]; [8; 9; 10; 11; 12; 13]; [14; 15; 16]]%Z 6).
  - reflexivity.
  - simpl. auto.
Defined.

(** C5.  With [max_items >= 1] the fixed-count generator cuts every length
    group, in order, into consecutive chunks of at most [max_items]
    sequences, and yields these chunks group after group; five sequences of
    length 1 with [max_items = 2] give batches of 2, 2 and 1 sequences. *)
Theorem fixed_count_chunks (tokenized_inputs : list tokens) (max_items : Z) :
  (1 <= max_items)%Z ->
  (exists css : list (list batch),
      Forall2 (fun g cs => Sorting.chunker (snd g) max_items = inr cs /\
                           concat cs = snd g)
              (Bucketer.sorted_batches tokenized_inputs) css /\
      Py.yielded (Sorting.batch_plan tokenized_inputs max_items) = concat css) /\
  Forall (fun b => (Z.of_nat (item_count b) <= max_items)%Z)
         (Py.yielded (Sorting.batch_plan tokenized_inputs max_items)) /\
  (forall a b c d e : Z,
      map item_count (Py.yielded (Sorting.batch_plan [[a]; [b]; [c]; [d]; [e]] 2)) =
      [2; 2; 1]).
Proof.
  intros Hm. split; [|split].
  - exists (map (fun g => chunks (Z.to_nat max_items) (snd g))
                (Bucketer.sorted_batches tokenized_inputs)).
    split.
    + induction (Bucketer.sorted_batches tokenized_inputs) as [| g gs IH];
        simpl; constructor; [|exact IH].
      split; [apply chunker_pos; lia | apply chunks_cover; lia].
    + rewrite sorting_plan_pos by lia. simpl. apply flat_map_concat_map.
  - rewrite sorting_plan_pos by lia. simpl.
    apply Forall_forall. intros b Hb. apply in_flat_map in Hb.
    destruct Hb as (g & _ & Hb).
    pose proof (chunks_sizes (Z.to_nat max_items) (snd g)) as H.
    rewrite Forall_forall in H. specialize (H ltac:(lia) b Hb).
    unfold item_count. lia.
  - intros a b c d e. reflexivity.
Qed.

Lemma fixed_count_chunks_witness :
  Forall (fun b => (Z.of_nat (item_count b) <= 2)%Z)
         (Py.yielded (Sorting.batch_plan [[1]; [2; 3]; [4]; [5]; [6; 7]]%Z 2)).
Proof.
  apply (fixed_count_chunks [[1]; [2; 3]; [4]; [5]; [6; 7]]%Z 2). lia.
Defined.

(** C6.  The bucketer's lengths are strictly ascending, hence without
    repetition, and both generators yield non-empty batches in
    non-decreasing order of the smallest sequence length they hold. *)
Theorem batches_in_ascending_length_order
        (tokenized_inputs : list tokens) (max_batch_size : Z) :
  (StronglySorted lt (Py.keys (Bucketer.sorted_batches tokenized_inputs)) /\
   NoDup (Py.keys (Bucketer.sorted_batches tokenized_inputs))) /\
  (Forall (fun b : batch => b <> [])
          (Py.yielded (Sorting.batch_plan tokenized_inputs max_batch_size)) /\
   StronglySorted le
     (map min_length (Py.yielded (Sorting.batch_plan tokenized_inputs max_batch_size)))) /\
  (Forall (fun b : batch => b <> [])
          (Py.yielded (Quantization.batch_plan tokenized_inputs)) /\
   StronglySorted le
     (map min_length (Py.yielded (Quantization.batch_plan tokenized_inputs)))).
Proof.
  pose proof (sorted_batches_ascending tokenized_inputs) as Hasc.
  pose proof (sorted_batches_ok tokenized_inputs) as Hok.
  split; [split; [exact Hasc | now apply StronglySorted_lt_NoDup] | split].
  - destruct (Z_lt_le_dec 0 max_batch_size) as [Hm | Hm].
    + split.
      * apply Forall_forall. intros b Hb.
        destruct (sorting_batches_uniform tokenized_inputs max_batch_size b Hm Hb)
          as (_ & _ & _ & Hne & _). exact Hne.
      * rewrite sorting_plan_pos by exact Hm. simpl.
        apply (split_sorted (chunks (Z.to_nat max_batch_size))); [exact Hasc|].
        intros g Hg. apply split_uniform with (groups := Bucketer.sorted_batches tokenized_inputs); auto.
        -- intros g' _. apply chunks_cover. lia.
        -- intros g' _. apply chunks_split_nonempty. lia.
    + rewrite sorting_plan_nonpos by exact Hm. split; constructor.
  - destruct (quantization_plan_cases tokenized_inputs)
      as [[_ ->] | (max_size & Hmax & ->)]; simpl.
    + split; constructor.
    + split.
      * apply Forall_forall. intros b Hb.
        destruct (quantization_batches_uniform tokenized_inputs max_size b Hmax Hb)
          as (_ & _ & _ & Hne & _). exact Hne.
      * apply (split_sorted (Quantization.pack_group max_size)); [exact Hasc|].
        intros g Hg. apply split_uniform with (groups := Bucketer.sorted_batches tokenized_inputs); auto.
        -- intros g' _. apply pack_group_concat.
        -- intros g' Hg'. apply pack_group_nonempty.
           apply (group_fits_max (Bucketer.sorted_batches tokenized_inputs)); auto.
Qed.

(** C7.  The token-budget generator packs each length group on its own:
    the batches produced for a group hold exactly that group's sequences,
    in order, so nothing is carried into the next group, and every batch
    yielded is non-empty with sequences of one length. *)
Theorem token_budget_flushes_per_group
        (tokenized_inputs : list tokens) (max_size : nat) :
  Py.max (Py.keys (Bucketer.sorted_batches tokenized_inputs)) = inr max_size ->
  Py.yielded (Quantization.batch_plan tokenized_inputs) =
  flat_map (fun g => Quantization.pack_group max_size (snd g))
           (Bucketer.sorted_batches tokenized_inputs) /\
  Forall (fun g => concat (Quantization.pack_group max_size (snd g)) = snd g)
         (Bucketer.sorted_batches tokenized_inputs) /\
  Forall (fun b : batch =>
            exists k, b <> [] /\ Forall (fun t : tokens => length t = k) b)
         (Py.yielded (Quantization.batch_plan tokenized_inputs)).
Proof.
  intros Hmax.
  destruct (quantization_plan_cases tokenized_inputs)
    as [[E _] | (m & Hm & E)].
  - rewrite E in Hmax. discriminate.
  - rewrite Hmax in Hm. injection Hm as <-. rewrite E. simpl.
    split; [reflexivity | split].
    + apply Forall_forall. intros g _. apply pack_group_concat.
    + apply Forall_forall. intros b Hb.
      destruct (quantization_batches_uniform tokenized_inputs max_size b Hmax Hb)
        as (g & _ & _ & Hu).
      exists (fst g). exact Hu.
Qed.

Lemma token_budget_flushes_per_group_witness :
  Py.yielded (Quantization.batch_plan [[1; 2]; [3]; [4]; [5; 6]; [7]]%Z) =
  [[[3]; [4]]; [[7]]; [[1; 2]]; [[5; 6]]]%Z.
Proof.
  destruct (token_budget_flushes_per_group [[1; 2]; [3]; [4]; [5; 6]; [7]]%Z 2)
    as (H & _ & _).
  - reflexivity.
  - rewrite H. reflexivity.
Defined.

(** C10.  For [max_size >= 1], [chunker] returns chunks whose concatenation
    is the list itself; every chunk but the last has exactly [max_size]
    items, and the last has between 1 and [max_size]. *)
Theorem chunker_partitions {A : Type} (sq : list A) (max_size : Z) :
  (1 <= max_size)%Z ->
  exists cs : list (list A),
    Sorting.chunker sq max_size = inr cs /\
    concat cs = sq /\
    (forall i, S i < length cs -> Z.of_nat (length (nth i cs [])) = max_size) /\
    Forall (fun c => (1 <= Z.of_nat (length c) <= max_size)%Z) cs.
Proof.
  intros Hm. exists (chunks (Z.to_nat max_size) sq).
  split; [apply chunker_pos; lia|].
  split; [apply chunks_cover; lia|].
  split.
  - intros i Hi. rewrite chunks_full by (lia || exact Hi). lia.
  - eapply Forall_impl; [|apply (chunks_sizes (Z.to_nat max_size) sq); lia].
    intros c Hc. cbv beta in Hc. lia.
Qed.

Lemma chunker_partitions_witness :
  exists cs : list (list Z),
    Sorting.chunker [1; 2; 3; 4; 5; 6; 7]%Z 3 = inr cs /\
    concat cs = [1; 2; 3; 4; 5; 6; 7]%Z /\
    (forall i, S i < length cs -> Z.of_nat (length (nth i cs [])) = 3%Z) /\
    Forall (fun c => (1 <= Z.of_nat (length c) <= 3)%Z) cs.
Proof.
  apply (chunker_partitions [1; 2; 3; 4; 5; 6; 7]%Z 3). lia.
Defined.

(** C3 fails as stated: a negative [max_batch_size] raises nothing.  With
    [max_batch_size = -1] the [range] in [chunker] is empty, the generator
    yields no batch and returns normally. *)
Lemma negative_max_items_does_not_fail :
  Sorting.batch_plan [[1; 2]; [3]]%Z (-1) =
  {| Py.yielded := []; Py.finish := Sorting.all_processed |} /\
  ~ (exists e, Py.finish (Sorting.batch_plan [[1; 2]; [3]]%Z (-1)) = Py.Raised e).
Proof.
  split; [reflexivity|].
  intros [e He]. vm_compute in He. discriminate.
Qed.

(** C3, amended.  A non-positive [max_items] never lets the fixed-count
    generator yield a batch.  With [max_items = 0] and at least one
    non-empty sequence it fails with [ValueError] on the first pull; with a
    negative [max_items], or without any non-empty sequence, it returns
    normally.  The token-budget generator has no sizing argument: its
    budget is the largest sequence length, which is positive. *)
Theorem nonpositive_max_items_yields_nothing
        (tokenized_inputs : list tokens) (max_items : Z) :
  (max_items <= 0)%Z ->
  Py.yielded (Sorting.batch_plan tokenized_inputs max_items) = [] /\
  (max_items = 0%Z -> filter nonempty tokenized_inputs <> [] ->
   Py.finish (Sorting.batch_plan tokenized_inputs max_items) = Py.Raised Py.ValueError) /\
  ((max_items < 0)%Z \/ filter nonempty tokenized_inputs = [] ->
   Py.finish (Sorting.batch_plan tokenized_inputs max_items) = Sorting.all_processed) /\
  (forall budget,
      Py.max (Py.keys (Bucketer.sorted_batches tokenized_inputs)) = inr budget ->
      0 < budget).
Proof.
  intros Hm. split; [now apply sorting_plan_nonpos|]. split; [|split].
  - intros -> Hne. rewrite sorting_plan_zero. simpl.
    destruct (Bucketer.sorted_batches tokenized_inputs) eqn:E; [|reflexivity].
    apply sorted_batches_nil in E. contradiction.
  - intros [Hneg | Hnil].
    + now rewrite sorting_plan_neg.
    + apply sorted_batches_nil in Hnil.
      destruct (Z.eq_dec max_items 0) as [-> | Hne].
      * rewrite sorting_plan_zero, Hnil. reflexivity.
      * rewrite sorting_plan_neg by lia. reflexivity.
  - intros budget Hmax. apply max_spec in Hmax. destruct Hmax as [Hin _].
    unfold Py.keys in Hin. apply in_map_iff in Hin.
    destruct Hin as (g & <- & Hg).
    pose proof (sorted_batches_ok tokenized_inputs) as Hok.
    rewrite Forall_forall in Hok. now destruct (Hok g Hg).
Qed.

Lemma nonpositive_max_items_yields_nothing_witness :
  Py.yielded (Sorting.batch_plan [[1; 2]; [3]]%Z 0) = [] /\
  Py.finish (Sorting.batch_plan [[1; 2]; [3]]%Z 0) = Py.Raised Py.ValueError.
Proof.
  destruct (nonpositive_max_items_yields_nothing [[1; 2]; [3]]%Z 0) as (H1 & H2 & _).
  - lia.
  - split; [exact H1|]. apply H2; [reflexivity | discriminate].
Defined.

(** C4.  On an input without any non-empty sequence the fixed-count
    generator yields nothing and returns normally, whatever its
    [max_batch_size], but the token-budget generator raises [ValueError]:
    [max] is applied to the keys of an empty dictionary. *)
Theorem empty_input_raises_in_token_budget (tokenized_inputs : list tokens) :
  filter nonempty tokenized_inputs = [] ->
  Quantization.batch_plan tokenized_inputs =
  {| Py.yielded := []; Py.finish := Py.Raised Py.ValueError |} /\
  forall max_batch_size,
    Sorting.batch_plan tokenized_inputs max_batch_size =
    {| Py.yielded := []; Py.finish := Sorting.all_processed |}.
Proof.
  intros Hnil. apply sorted_batches_nil in Hnil. split.
  - destruct (quantization_plan_cases tokenized_inputs)
      as [[_ E] | (max_size & Hmax & _)]; [exact E|].
    rewrite Hnil in Hmax. discriminate.
  - intros m. destruct (Z.lt_trichotomy m 0) as [H | [-> | H]].
    + now apply sorting_plan_neg.
    + rewrite sorting_plan_zero, Hnil. reflexivity.
    + rewrite sorting_plan_pos, Hnil by exact H. reflexivity.
Qed.

Lemma empty_input_raises_in_token_budget_witness :
  Quantization.batch_plan [[]; []] =
  {| Py.yielded := []; Py.finish := Py.Raised Py.ValueError |}.
Proof.
  apply (empty_input_raises_in_token_budget [[]; []]). reflexivity.
Defined.

(** C8 fails as stated: when the wrapped work raises, [track_time] prints
    nothing.  The exception is thrown into the generator at its [yield],
    which no [try] protects, so the two statements after it never run. *)
Lemma track_time_silent_on_exception :
  Timing.with_ Timing.track_time
    (fun w => (Timing.Threw Py.ValueError,
               {| Timing.now := Timing.now w + 5; Timing.stdout := Timing.stdout w |}))
    {| Timing.now := 10; Timing.stdout := [] |} =
  (Timing.Threw Py.ValueError, {| Timing.now := 15; Timing.stdout := [] |}).
Proof. reflexivity. Qed.

(** C8, amended.  [track_time] prints the time elapsed between entering and
    leaving the block when the block completes or is left early by [break]
    or [return]; when the block raises, the exception goes through and
    nothing is printed. *)
Theorem track_time_reports (body : Timing.world -> Timing.outcome * Timing.world)
        (w : Timing.world) :
  Timing.with_ Timing.track_time body w =
  match fst (body w) with
  | Timing.Threw e => (Timing.Threw e, snd (body w))
  | o => (o, Timing.print
               (Timing.Execution_time (Timing.now (snd (body w)) - Timing.now w))
               (snd (body w)))
  end.
Proof.
  unfold Timing.with_. simpl.
  destruct (body w) as [o w2]. destruct o; reflexivity.
Qed.

(** Runs of a generator against the functional model of its plan. *)

Section RunFacts.
Context {config R : Type}.
Variable pull : config -> Gen.event R -> config -> Prop.
Variable plan : config -> Py.gen_result batch R.

Hypothesis pull_yield : forall c b out c',
  pull c (Gen.Yielded b out) c' ->
  Py.yielded (plan c) = b :: Py.yielded (plan c') /\
  Py.finish (plan c) = Py.finish (plan c').

Hypothesis pull_finish : forall c f c',
  pull c (Gen.Finished f) c' ->
  Py.yielded (plan c) = [] /\ Py.finish (plan c) = f.

(** Whatever the model answers and wherever the consumer stops, the batches
    of a run are a prefix of the plan; a run pulled to its end has all of
    them and finishes as the plan does. *)
Lemma run_follows_plan (c : config) (tr : list (batch * list string))
      (o : option (Py.completion R)) :
  Gen.run pull c tr o ->
  exists rest,
    Py.yielded (plan c) = map fst tr ++ rest /\
    forall f, o = Some f -> rest = [] /\ f = Py.finish (plan c).
Proof.
  induction 1 as [c | c b out c' tr o Hp _ IH | c f c' Hp].
  - exists (Py.yielded (plan c)). split; [reflexivity | discriminate].
  - destruct IH as (rest & Hy & Hf).
    destruct (pull_yield _ _ _ _ Hp) as [Ey Ef].
    exists rest. split.
    + simpl. now rewrite Ey, Hy.
    + intros f E. rewrite Ef. now apply Hf.
  - destruct (pull_finish _ _ _ Hp) as [Ey Ef].
    exists []. split; [exact Ey|].
    intros f' E. injection E as <-. auto.
Qed.

Variable model : batch -> list string.
Variable live : config -> Prop.

Hypothesis pull_progress : forall c,
  live c ->
  (exists f c', pull c (Gen.Finished f) c') \/
  (exists b c', pull c (Gen.Yielded b (model b)) c' /\ live c').

(** A consumer that keeps pulling reaches the end of the generator. *)
Lemma complete_run_exists (n : nat) :
  forall c, live c -> length (Py.yielded (plan c)) = n ->
  exists tr f,
    Gen.run pull c tr (Some f) /\ map snd tr = map model (map fst tr).
Proof.
  induction n as [| n IH]; intros c Hc Hn;
    destruct (pull_progress c Hc) as [(f & c' & Hp) | (b & c' & Hp & Hc')].
  - exists [], f. split; [eapply Gen.run_finish; exact Hp | reflexivity].
  - destruct (pull_yield _ _ _ _ Hp) as [Ey _]. rewrite Ey in Hn. discriminate.
  - exists [], f. split; [eapply Gen.run_finish; exact Hp | reflexivity].
  - destruct (pull_yield _ _ _ _ Hp) as [Ey _]. rewrite Ey in Hn.
    simpl in Hn. injection Hn as Hn.
    destruct (IH c' Hc' Hn) as (tr & f & Hrun & Hout).
    exists ((b, model b) :: tr), f. split.
    + eapply Gen.run_yield; [exact Hp | exact Hrun].
    + simpl. now rewrite Hout.
Qed.

End RunFacts.

(** The fixed-count generator. *)

Lemma resume_plan (max_batch_size : Z) (chunks : list batch)
      (groups : list (nat * list tokens)) (ev : Gen.event string)
      (c : SortingRun.config) :
  SortingRun.resume max_batch_size chunks groups ev c ->
  match ev with
  | Gen.Yielded b _ =>
      chunks ++ Py.yielded (Sorting.emit groups max_batch_size) =
      b :: Py.yielded (SortingRun.plan c) /\
      Py.finish (Sorting.emit groups max_batch_size) = Py.finish (SortingRun.plan c)
  | Gen.Finished f =>
      chunks ++ Py.yielded (Sorting.emit groups max_batch_size) = [] /\
      Py.finish (Sorting.emit groups max_batch_size) = f
  end.
Proof.
  induction 1 as [b chunks groups out
                 | len g groups chunks ev c Hch _ IH
                 | len g groups e Hch
                 | ].
  - split; reflexivity.
  - simpl Sorting.emit. rewrite Hch. exact IH.
  - simpl Sorting.emit. rewrite Hch. split; reflexivity.
  - split; reflexivity.
Qed.

Lemma sorting_pull_plan (c : SortingRun.config) (ev : Gen.event string)
      (c' : SortingRun.config) :
  SortingRun.pull c ev c' ->
  match ev with
  | Gen.Yielded b _ =>
      Py.yielded (SortingRun.plan c) = b :: Py.yielded (SortingRun.plan c') /\
      Py.finish (SortingRun.plan c) = Py.finish (SortingRun.plan c')
  | Gen.Finished f =>
      Py.yielded (SortingRun.plan c) = [] /\ Py.finish (SortingRun.plan c) = f
  end.
Proof.
  intros Hp. destruct Hp as [t m s ev c' Hs Hr | chunks groups m ev c' Hr].
  - rewrite (stable_sort_unique (@length Z) t s _ Hs
               (sorted_is_stable_sort (@length Z) t)) in Hr.
    apply resume_plan in Hr. exact Hr.
  - apply resume_plan in Hr. exact Hr.
Qed.

Lemma resume_progress (max_batch_size : Z) (model : batch -> list string)
      (groups : list (nat * list tokens)) :
  forall chunks,
    (exists f c', SortingRun.resume max_batch_size chunks groups (Gen.Finished f) c') \/
    (exists b c',
        SortingRun.resume max_batch_size chunks groups (Gen.Yielded b (model b)) c' /\
        c' <> SortingRun.Done).
Proof.
  induction groups as [| [len g] groups IH]; intros [| b chunks].
  - left. eexists _, _. apply SortingRun.resume_return.
  - right. eexists _, _. split; [apply SortingRun.resume_yield | discriminate].
  - destruct (Sorting.chunker g max_batch_size) as [e | cs] eqn:Hch.
    + left. eexists _, _. apply SortingRun.resume_raise. exact Hch.
    + destruct (IH cs) as [(f & c' & Hr) | (b & c' & Hr & Hc')].
      * left. exists f, c'. eapply SortingRun.resume_group; eassumption.
      * right. exists b, c'. split; [|exact Hc'].
        eapply SortingRun.resume_group; eassumption.
  - right. eexists _, _. split; [apply SortingRun.resume_yield | discriminate].
Qed.

Lemma sorting_pull_progress (model : batch -> list string) (c : SortingRun.config) :
  c <> SortingRun.Done ->
  (exists f c', SortingRun.pull c (Gen.Finished f) c') \/
  (exists b c', SortingRun.pull c (Gen.Yielded b (model b)) c' /\
                c' <> SortingRun.Done).
Proof.
  intros Hc. destruct c as [t m | chunks groups m |]; [| |congruence].
  - destruct (resume_progress m model
                (Py.items (Bucketer.group (Py.sorted (@length Z) t))) [])
      as [(f & c' & Hr) | (b & c' & Hr & Hc')].
    + left. exists f, c'.
      eapply SortingRun.pull_fresh; [apply sorted_is_stable_sort | exact Hr].
    + right. exists b, c'. split; [|exact Hc'].
      eapply SortingRun.pull_fresh; [apply sorted_is_stable_sort | exact Hr].
  - destruct (resume_progress m model groups chunks)
      as [(f & c' & Hr) | (b & c' & Hr & Hc')].
    + left. exists f, c'. now apply SortingRun.pull_suspended.
    + right. exists b, c'. split; [now apply SortingRun.pull_suspended | exact Hc'].
Qed.

(** The token-budget generator. *)

Lemma exec_plan (max_size : nat) (k : QuantizationRun.control)
      (ev : Gen.event unit) (c : QuantizationRun.config) :
  QuantizationRun.exec max_size k ev c ->
  match ev with
  | Gen.Yielded b _ =>
      QuantizationRun.batches_from max_size k =
      b :: Py.yielded (QuantizationRun.plan c) /\
      Py.finish (QuantizationRun.plan c) = Py.Returned tt
  | Gen.Finished f =>
      QuantizationRun.batches_from max_size k = [] /\ f = Py.Returned tt
  end.
Proof.
  induction 1 as [ | len g groups ev c _ IH
                 | b rest cb sz groups out Hlt
                 | b rest cb sz groups ev c Hle _ IH
                 | cb sz groups out Hne
                 | sz groups ev c _ IH ].
  - split; reflexivity.
  - exact IH.
  - apply Nat.ltb_lt in Hlt. simpl. rewrite Hlt.
    unfold tokens, batch in *.
    destruct (Quantization.pack_loop max_size rest [b] (length b)) as [ys last].
    split; reflexivity.
  - apply Nat.ltb_ge in Hle.
    unfold QuantizationRun.batches_from in *. simpl Quantization.pack_loop.
    rewrite Hle. exact IH.
  - simpl. destruct cb as [| x cb]; [congruence|]. split; reflexivity.
  - exact IH.
Qed.

Lemma quantization_pull_plan (c : QuantizationRun.config) (ev : Gen.event unit)
      (c' : QuantizationRun.config) :
  QuantizationRun.pull c ev c' ->
  match ev with
  | Gen.Yielded b _ =>
      Py.yielded (QuantizationRun.plan c) =
      b :: Py.yielded (QuantizationRun.plan c') /\
      Py.finish (QuantizationRun.plan c) = Py.finish (QuantizationRun.plan c')
  | Gen.Finished f =>
      Py.yielded (QuantizationRun.plan c) = [] /\
      Py.finish (QuantizationRun.plan c) = f
  end.
Proof.
  intros Hp.
  destruct Hp as [t s e Hs Hmax | t s max_size ev c' Hs Hmax He
                 | max_size b rest groups ev c' He
                 | max_size groups ev c' He].
  - rewrite (stable_sort_unique (@length Z) t s _ Hs
               (sorted_is_stable_sort (@length Z) t)) in Hmax.
    simpl. unfold Quantization.batch_plan, Quantization.plan_of_sorted.
    rewrite Hmax. split; reflexivity.
  - rewrite (stable_sort_unique (@length Z) t s _ Hs
               (sorted_is_stable_sort (@length Z) t)) in Hmax, He.
    apply exec_plan in He.
    simpl QuantizationRun.plan.
    unfold Quantization.batch_plan, Quantization.plan_of_sorted.
    rewrite Hmax. simpl.
    destruct ev as [b out | f].
    + destruct He as [E1 E2]. now rewrite E2.
    + destruct He as [E1 E2]. now rewrite E2.
  - apply exec_plan in He. simpl.
    destruct ev as [b' out | f].
    + destruct He as [E1 E2]. now rewrite E2.
    + destruct He as [E1 E2]. now rewrite E2.
  - apply exec_plan in He. simpl.
    destruct ev as [b' out | f].
    + destruct He as [E1 E2]. now rewrite E2.
    + destruct He as [E1 E2]. now rewrite E2.
Qed.

Lemma exec_progress_items (max_size : nat) (model : batch -> list string)
      (groups : list (nat * list tokens)) :
  QuantizationRun.can_go max_size model (QuantizationRun.Groups groups) ->
  forall rest cb sz,
    QuantizationRun.can_go max_size model (QuantizationRun.Items rest cb sz groups).
Proof.
  intros Hg. induction rest as [| b rest IH]; intros cb sz.
  - destruct cb as [| x cb].
    + destruct Hg as [(f & c' & He) | (b & c' & He & Hc')].
      * left. exists f, c'. now apply QuantizationRun.exec_no_leftover.
      * right. exists b, c'. split; [now apply QuantizationRun.exec_no_leftover | exact Hc'].
    + right. eexists _, _.
      split; [apply QuantizationRun.exec_leftover; discriminate | discriminate].
  - destruct (Nat.lt_ge_cases max_size (sz + length b)) as [Hlt | Hle].
    + right. eexists _, _.
      split; [apply QuantizationRun.exec_flush; exact Hlt | discriminate].
    + destruct (IH (cb ++ [b]) (sz + length b))
        as [(f & c' & He) | (b' & c' & He & Hc')].
      * left. exists f, c'. now apply QuantizationRun.exec_add.
      * right. exists b', c'. split; [now apply QuantizationRun.exec_add | exact Hc'].
Qed.

Lemma exec_progress_groups (max_size : nat) (model : batch -> list string)
      (groups : list (nat * list tokens)) :
  QuantizationRun.can_go max_size model (QuantizationRun.Groups groups).
Proof.
  induction groups as [| [len g] groups IH].
  - left. eexists _, _. apply QuantizationRun.exec_return.
  - destruct (exec_progress_items max_size model groups IH g [] 0)
      as [(f & c' & He) | (b & c' & He & Hc')].
    + left. exists f, c'. now apply QuantizationRun.exec_group.
    + right. exists b, c'. split; [now apply QuantizationRun.exec_group | exact Hc'].
Qed.

Lemma quantization_pull_progress (model : batch -> list string)
      (c : QuantizationRun.config) :
  c <> QuantizationRun.Done ->
  (exists f c', QuantizationRun.pull c (Gen.Finished f) c') \/
  (exists b c', QuantizationRun.pull c (Gen.Yielded b (model b)) c' /\
                c' <> QuantizationRun.Done).
Proof.
  intros Hc.
  destruct c as [t | max_size b rest groups | max_size groups |]; [| | |congruence].
  - pose proof (sorted_is_stable_sort (@length Z) t) as Hs.
    destruct (Py.max (Py.keys (Bucketer.group (Py.sorted (@length Z) t))))
      as [e | max_size] eqn:Hmax.
    + left. eexists _, _. eapply QuantizationRun.pull_fresh_raise; eassumption.
    + destruct (exec_progress_groups max_size model
                  (Py.items (Bucketer.group (Py.sorted (@length Z) t))))
        as [(f & c' & He) | (b & c' & He & Hc')].
      * left. exists f, c'. eapply QuantizationRun.pull_fresh; eassumption.
      * right. exists b, c'. split; [|exact Hc'].
        eapply QuantizationRun.pull_fresh; eassumption.
  - destruct (exec_progress_items max_size model groups
                (exec_progress_groups max_size model groups) rest [b] (length b))
      as [(f & c' & He) | (b' & c' & He & Hc')].
    + left. exists f, c'. now apply QuantizationRun.pull_flush.
    + right. exists b', c'. split; [now apply QuantizationRun.pull_flush | exact Hc'].
  - destruct (exec_progress_groups max_size model groups)
      as [(f & c' & He) | (b & c' & He & Hc')].
    + left. exists f, c'. now apply QuantizationRun.pull_leftover.
    + right. exists b, c'. split; [now apply QuantizationRun.pull_leftover | exact Hc'].
Qed.

(** C9.  Bucketing plus packing is deterministic over the runs of the two
    generators.  Whatever stable sort [sorted] is and whatever the model
    returns at each [yield], a consumer that keeps pulling reaches the end
    of the generator; a consumer that stops early has seen a prefix of the
    plan; and any two runs pulled to the end on the same input and
    configuration have handed the same batches, in the same order, to the
    model and finished the same way, namely as the plan of the functional
    model says. *)
Theorem runs_produce_one_plan (tokenized_inputs : list tokens) (max_batch_size : Z) :
  ((forall model : batch -> list string,
       exists tr f,
         Gen.run SortingRun.pull
                 (SortingRun.Fresh tokenized_inputs max_batch_size) tr (Some f) /\
         map snd tr = map model (map fst tr)) /\
   (forall tr o,
       Gen.run SortingRun.pull
               (SortingRun.Fresh tokenized_inputs max_batch_size) tr o ->
       exists rest,
         Py.yielded (Sorting.batch_plan tokenized_inputs max_batch_size) =
         map fst tr ++ rest) /\
   (forall tr1 tr2 f1 f2,
       Gen.run SortingRun.pull
               (SortingRun.Fresh tokenized_inputs max_batch_size) tr1 (Some f1) ->
       Gen.run SortingRun.pull
               (SortingRun.Fresh tokenized_inputs max_batch_size) tr2 (Some f2) ->
       map fst tr1 = map fst tr2 /\ f1 = f2 /\
       map fst tr1 = Py.yielded (Sorting.batch_plan tokenized_inputs max_batch_size) /\
       f1 = Py.finish (Sorting.batch_plan tokenized_inputs max_batch_size))) /\
  ((forall model : batch -> list string,
       exists tr f,
         Gen.run QuantizationRun.pull
                 (QuantizationRun.Fresh tokenized_inputs) tr (Some f) /\
         map snd tr = map model (map fst tr)) /\
   (forall tr o,
       Gen.run QuantizationRun.pull (QuantizationRun.Fresh tokenized_inputs) tr o ->
       exists rest,
         Py.yielded (Quantization.batch_plan tokenized_inputs) = map fst tr ++ rest) /\
   (forall tr1 tr2 f1 f2,
       Gen.run QuantizationRun.pull
               (QuantizationRun.Fresh tokenized_inputs) tr1 (Some f1) ->
       Gen.run QuantizationRun.pull
               (QuantizationRun.Fresh tokenized_inputs) tr2 (Some f2) ->
       map fst tr1 = map fst tr2 /\ f1 = f2 /\
       map fst tr1 = Py.yielded (Quantization.batch_plan tokenized_inputs) /\
       f1 = Py.finish (Quantization.batch_plan tokenized_inputs))).
Proof.
  assert (Sy : forall c b out c',
             SortingRun.pull c (Gen.Yielded b out) c' ->
             Py.yielded (SortingRun.plan c) = b :: Py.yielded (SortingRun.plan c') /\
             Py.finish (SortingRun.plan c) = Py.finish (SortingRun.plan c')).
  { intros c b out c' H. exact (sorting_pull_plan c _ c' H). }
  assert (Sf : forall c f c',
             SortingRun.pull c (Gen.Finished f) c' ->
             Py.yielded (SortingRun.plan c) = [] /\ Py.finish (SortingRun.plan c) = f).
  { intros c f c' H. exact (sorting_pull_plan c _ c' H). }
  assert (Qy : forall c b out c',
             QuantizationRun.pull c (Gen.Yielded b out) c' ->
             Py.yielded (QuantizationRun.plan c) =
             b :: Py.yielded (QuantizationRun.plan c') /\
             Py.finish (QuantizationRun.plan c) = Py.finish (QuantizationRun.plan c')).
  { intros c b out c' H. exact (quantization_pull_plan c _ c' H). }
  assert (Qf : forall c f c',
             QuantizationRun.pull c (Gen.Finished f) c' ->
             Py.yielded (QuantizationRun.plan c) = [] /\
             Py.finish (QuantizationRun.plan c) = f).
  { intros c f c' H. exact (quantization_pull_plan c _ c' H). }
  split; (split; [|split]).
  - intros model.
    apply (complete_run_exists SortingRun.pull SortingRun.plan Sy model
             (fun c => c <> SortingRun.Done) (sorting_pull_progress model)
             (length (Py.yielded (SortingRun.plan
                        (SortingRun.Fresh tokenized_inputs max_batch_size))))
             (SortingRun.Fresh tokenized_inputs max_batch_size));
      [discriminate | reflexivity].
  - intros tr o Hrun.
    destruct (run_follows_plan SortingRun.pull SortingRun.plan Sy Sf _ tr o Hrun)
      as (rest & Hy & _).
    exists rest. exact Hy.
  - intros tr1 tr2 f1 f2 H1 H2.
    destruct (run_follows_plan SortingRun.pull SortingRun.plan Sy Sf _ _ _ H1)
      as (r1 & Hy1 & Hf1).
    destruct (run_follows_plan SortingRun.pull SortingRun.plan Sy Sf _ _ _ H2)
      as (r2 & Hy2 & Hf2).
    destruct (Hf1 f1 eq_refl) as [-> ->]. destruct (Hf2 f2 eq_refl) as [-> ->].
    rewrite app_nil_r in Hy1, Hy2. simpl in Hy1, Hy2.
    repeat split; congruence.
  - intros model.
    apply (complete_run_exists QuantizationRun.pull QuantizationRun.plan Qy model
             (fun c => c <> QuantizationRun.Done) (quantization_pull_progress model)
             (length (Py.yielded (QuantizationRun.plan
                        (QuantizationRun.Fresh tokenized_inputs))))
             (QuantizationRun.Fresh tokenized_inputs));
      [discriminate | reflexivity].
  - intros tr o Hrun.
    destruct (run_follows_plan QuantizationRun.pull QuantizationRun.plan Qy Qf _ tr o Hrun)
      as (rest & Hy & _).
    exists rest. exact Hy.
  - intros tr1 tr2 f1 f2 H1 H2.
    destruct (run_follows_plan QuantizationRun.pull QuantizationRun.plan Qy Qf _ _ _ H1)
      as (r1 & Hy1 & Hf1).
    destruct (run_follows_plan QuantizationRun.pull QuantizationRun.plan Qy Qf _ _ _ H2)
      as (r2 & Hy2 & Hf2).
    destruct (Hf1 f1 eq_refl) as [-> ->]. destruct (Hf2 f2 eq_refl) as [-> ->].
    rewrite app_nil_r in Hy1, Hy2. simpl in Hy1, Hy2.
    repeat split; congruence.
Qed.

Lemma runs_produce_one_plan_witness :
  map fst [([[3]]%Z, ["a"]%string); ([[1; 2]]%Z, ["b"]%string)] =
  map fst [([[3]]%Z, ["x"; "y"]%string); ([[1; 2]]%Z, @nil string)] /\
  Sorting.all_processed = Sorting.all_processed.
Proof.
  assert (Hrun : forall o1 o2,
             Gen.run SortingRun.pull (SortingRun.Fresh [[1; 2]; [3]]%Z 1)
                     [([[3]]%Z, o1); ([[1; 2]]%Z, o2)]
                     (Some Sorting.all_processed)).
  { intros o1 o2.
    apply Gen.run_yield with (c' := SortingRun.Suspended [] [(2, [[1; 2]]%Z)] 1).
    - apply SortingRun.pull_fresh with (sorted_tokens := [[3]; [1; 2]]%Z).
      + apply (sorted_is_stable_sort (@length Z) [[1; 2]; [3]]%Z).
      + apply SortingRun.resume_group with (chunks := [[[3]]]%Z);
          [reflexivity | apply SortingRun.resume_yield].
    - apply Gen.run_yield with (c' := SortingRun.Suspended [] [] 1).
      + apply SortingRun.pull_suspended.
        apply SortingRun.resume_group with (chunks := [[[1; 2]]]%Z);
          [reflexivity | apply SortingRun.resume_yield].
      + apply Gen.run_finish with (c' := SortingRun.Done).
        apply SortingRun.pull_suspended. apply SortingRun.resume_return. }
  destruct (runs_produce_one_plan [[1; 2]; [3]]%Z 1) as [(_ & _ & Hdet) _].
  destruct (Hdet _ _ _ _ (Hrun ["a"]%string ["b"]%string)
                 (Hrun ["x"; "y"]%string [])) as (H1 & H2 & _).
  split; [exact H1 | exact H2].
Defined.

(** * Further properties of the code *)

(** ** What the bucketer stores under a length *)

Lemma filter_length_none (k : nat) (d : list (nat * list tokens)) :
  Forall group_ok d -> ~ In k (map fst d) ->
  filter (fun x : tokens => length x =? k) (members d) = [].
Proof.
  induction d as [| [k' g'] d IH]; intros Hok Hk; [reflexivity|].
  apply Forall_cons_iff in Hok. destruct Hok as [(_ & _ & Hg') Hok].
  simpl in Hk, Hg'. unfold members in *. simpl.
  rewrite filter_app, IH by tauto. rewrite app_nil_r.
  induction Hg' as [| x g' Hx _ IHg]; [reflexivity|].
  simpl. rewrite IHg.
  destruct (length x =? k) eqn:E; [|reflexivity].
  apply Nat.eqb_eq in E. exfalso. apply Hk. left. lia.
Qed.

Lemma filter_length_all (k : nat) (g : list tokens) :
  Forall (fun t : tokens => length t = k) g ->
  filter (fun x : tokens => length x =? k) g = g.
Proof.
  induction 1 as [| x g Hx _ IH]; [reflexivity|].
  simpl. rewrite Hx, Nat.eqb_refl, IH. reflexivity.
Qed.

Lemma filter_length_group (k : nat) (g : list tokens) (d : list (nat * list tokens)) :
  Forall group_ok d -> NoDup (map fst d) -> In (k, g) d ->
  filter (fun x : tokens => length x =? k) (members d) = g.
Proof.
  induction d as [| [k' g'] d IH]; intros Hok Hnd Hin; [contradiction|].
  pose proof Hok as Hok0.
  apply Forall_cons_iff in Hok. destruct Hok as [(_ & _ & Hg') Hok].
  simpl in Hnd, Hg'. apply NoDup_cons_iff in Hnd. destruct Hnd as [Hk' Hnd].
  change (members ((k', g') :: d)) with (g' ++ members d).
  rewrite filter_app.
  destruct Hin as [E | Hin].
  - injection E as -> ->.
    rewrite filter_length_all by exact Hg'.
    rewrite filter_length_none by assumption. apply app_nil_r.
  - rewrite (IH Hok Hnd Hin).
    assert (Hne : k <> k').
    { intros ->. apply Hk'. change k' with (fst (k', g)). now apply in_map. }
    assert (E : filter (fun x : tokens => length x =? k) g' = []).
    { clear - Hg' Hne. induction Hg' as [| x g' Hx _ IHg]; [reflexivity|].
      simpl. rewrite IHg.
      destruct (length x =? k) eqn:E; [|reflexivity].
      apply Nat.eqb_eq in E. lia. }
    now rewrite E.
Qed.

Lemma filter_length_nonempty (k : nat) (l : list tokens) :
  0 < k ->
  filter (fun x : tokens => length x =? k) (filter nonempty l) =
  filter (fun x : tokens => length x =? k) l.
Proof.
  intros Hk. induction l as [| x l IH]; [reflexivity|].
  simpl. unfold nonempty at 1.
  destruct (length x =? 0) eqn:E0; simpl.
  - apply Nat.eqb_eq in E0.
    destruct (length x =? k) eqn:E; [apply Nat.eqb_eq in E; lia | exact IH].
  - destruct (length x =? k); now rewrite IH.
Qed.

(** X1.  The list the bucketer stores under a length is made of the input
    sequences of that length, all of them, in the order of the input. *)
Theorem bucket_holds_inputs_of_its_length
        (tokenized_inputs : list tokens) (k : nat) (g : list tokens) :
  In (k, g) (Py.items (Bucketer.sorted_batches tokenized_inputs)) ->
  g = filter (fun x : tokens => length x =? k) tokenized_inputs.
Proof.
  intros Hin. unfold Py.items in Hin.
  pose proof (sorted_batches_ok tokenized_inputs) as Hok.
  pose proof (StronglySorted_lt_NoDup _ (sorted_batches_ascending tokenized_inputs)) as Hnd.
  rewrite <- (filter_length_group k g _ Hok Hnd Hin).
  rewrite sorted_batches_members.
  assert (Hk : 0 < k).
  { rewrite Forall_forall in Hok. now destruct (Hok _ Hin). }
  rewrite filter_length_nonempty by exact Hk.
  apply sorted_stable.
Qed.

Lemma bucket_holds_inputs_of_its_length_witness :
  [[5; 6]; [7; 8]]%Z =
  filter (fun x : tokens => length x =? 2) [[5; 6]; [1]; []; [7; 8]; [2; 3; 4]]%Z.
Proof.
  apply (bucket_holds_inputs_of_its_length [[5; 6]; [1]; []; [7; 8]; [2; 3; 4]]%Z).
  simpl. auto.
Defined.

(** X2.  The keys of the bucketer are the positive lengths that occur in
    the input, and no other. *)
Theorem bucket_keys_are_input_lengths (tokenized_inputs : list tokens) (k : nat) :
  In k (Py.keys (Bucketer.sorted_batches tokenized_inputs)) <->
  0 < k /\ exists t, In t tokenized_inputs /\ length t = k.
Proof.
  pose proof (sorted_batches_ok tokenized_inputs) as Hok.
  pose proof (sorted_batches_perm tokenized_inputs) as Hperm.
  rewrite Forall_forall in Hok. unfold Py.keys. split.
  - intros Hk. apply in_map_iff in Hk. destruct Hk as ([k' g] & Hfst & Hin).
    simpl in Hfst. subst k'.
    destruct (Hok _ Hin) as (Hpos & Hne & Hlen). simpl in *.
    split; [exact Hpos|].
    destruct g as [| t g]; [congruence|].
    exists t. split; [|now inversion Hlen].
    assert (Ht : In t (members (Bucketer.sorted_batches tokenized_inputs))).
    { unfold members. apply in_concat. exists (t :: g). split; [|now left].
      change (t :: g) with (snd (k, t :: g)). now apply in_map. }
    apply (Permutation_in _ Hperm) in Ht. apply filter_In in Ht. tauto.
  - intros (Hpos & t & Ht & Hlen).
    assert (Hin : In t (filter nonempty tokenized_inputs)).
    { apply filter_In. split; [exact Ht|]. unfold nonempty.
      destruct (length t =? 0) eqn:E; [apply Nat.eqb_eq in E; lia | reflexivity]. }
    apply (Permutation_in _ (Permutation_sym Hperm)) in Hin.
    unfold members in Hin. apply in_concat in Hin.
    destruct Hin as (g & Hg & Htg). apply in_map_iff in Hg.
    destruct Hg as ([k' g'] & Hsnd & Hin). simpl in Hsnd. subst g'.
    destruct (Hok _ Hin) as (_ & _ & Hall). simpl in Hall.
    rewrite Forall_forall in Hall. specialize (Hall t Htg).
    apply in_map_iff. exists (k', g). split; [simpl; lia | exact Hin].
Qed.

(** X3.  Both generators deliver the non-empty inputs in the order of the
    stable sort by length: shorter sequences first, and sequences of one
    length in the order of the input. *)
Theorem batches_follow_sorted_order
        (tokenized_inputs : list tokens) (max_batch_size : Z) :
  (1 <= max_batch_size)%Z ->
  concat (Py.yielded (Sorting.batch_plan tokenized_inputs max_batch_size)) =
  filter nonempty (Py.sorted (@length Z) tokenized_inputs) /\
  concat (Py.yielded (Quantization.batch_plan tokenized_inputs)) =
  filter nonempty (Py.sorted (@length Z) tokenized_inputs).
Proof.
  intros Hm. split.
  - rewrite sorting_batches_members by lia. apply sorted_batches_members.
  - rewrite quantization_batches_members. apply sorted_batches_members.
Qed.

Lemma batches_follow_sorted_order_witness :
  concat (Py.yielded (Sorting.batch_plan [[5; 6]; [1]; []; [7; 8]; [2]]%Z 1)) =
  filter nonempty (Py.sorted (@length Z) [[5; 6]; [1]; []; [7; 8]; [2]]%Z).
Proof.
  apply (batches_follow_sorted_order [[5; 6]; [1]; []; [7; 8]; [2]]%Z 1). lia.
Defined.

(** ** The tensors handed to the model *)

Lemma uniform_tensor_shape (k : nat) (b : batch) :
  uniform_batch k b -> Torch.tensor_shape b = inr [item_count b; k].
Proof.
  intros [Hne Hall]. destruct b as [| r rest]; [congruence|].
  apply Forall_cons_iff in Hall. destruct Hall as [Hr Hrest].
  unfold Torch.tensor_shape.
  assert (E : forallb (fun x : tokens => length x =? length r) rest = true).
  { apply forallb_forall. intros x Hx. rewrite Forall_forall in Hrest.
    apply Nat.eqb_eq. rewrite Hr. now apply Hrest. }
  rewrite E, Hr. reflexivity.
Qed.

(** X4.  Every batch either generator converts with [torch.tensor] is a
    non-empty list of sequences of one positive length: the conversion does
    not raise, the tensor is a matrix with one row per sequence, and
    [batch_generate] never takes its [unsqueeze] branch. *)
Theorem batches_are_matrices
        (tokenized_inputs : list tokens) (max_batch_size : Z) (b : batch) :
  In b (Py.yielded (Sorting.batch_plan tokenized_inputs max_batch_size)) \/
  In b (Py.yielded (Quantization.batch_plan tokenized_inputs)) ->
  exists k,
    0 < k /\ 0 < item_count b /\
    Torch.tensor_shape b = inr [item_count b; k] /\
    Torch.generate_shape [item_count b; k] = [item_count b; k].
Proof.
  intros Hb.
  assert (Hu : exists g, In g (Bucketer.sorted_batches tokenized_inputs) /\
                         uniform_batch (fst g) b).
  { destruct Hb as [Hb | Hb].
    - destruct (Z_lt_le_dec 0 max_batch_size) as [Hm | Hm].
      + destruct (sorting_batches_uniform tokenized_inputs max_batch_size b Hm Hb)
          as (g & Hg & _ & Hu). eauto.
      + rewrite sorting_plan_nonpos in Hb by exact Hm. contradiction.
    - destruct (quantization_plan_cases tokenized_inputs)
        as [[_ E] | (max_size & Hmax & E)]; rewrite E in Hb; simpl in Hb.
      + contradiction.
      + destruct (quantization_batches_uniform tokenized_inputs max_size b Hmax Hb)
          as (g & Hg & _ & Hu). eauto. }
  destruct Hu as (g & Hg & Hu). exists (fst g).
  pose proof (sorted_batches_ok tokenized_inputs) as Hok.
  rewrite Forall_forall in Hok. destruct (Hok g Hg) as (Hpos & _).
  split; [exact Hpos|]. split.
  - destruct Hu as [Hne _]. unfold item_count.
    destruct b; [congruence | simpl; lia].
  - split; [now apply uniform_tensor_shape | reflexivity].
Qed.

Lemma batches_are_matrices_witness :
  exists k,
    0 < k /\ 0 < item_count [[1; 2]; [5; 6]]%Z /\
    Torch.tensor_shape [[1; 2]; [5; 6]]%Z = inr [item_count [[1; 2]; [5; 6]]%Z; k] /\
    Torch.generate_shape [item_count [[1; 2]; [5; 6]]%Z; k] =
    [item_count [[1; 2]; [5; 6]]%Z; k].
Proof.
  apply (batches_are_matrices [[1; 2]; [3]; [5; 6]; [7; 8]]%Z 2).
  left. simpl. auto.
Defined.

(** ** How many chunks [chunker] makes *)

Lemma chunk_count_ceil (n : nat) (m : Z) :
  (0 < m)%Z ->
  Z.of_nat (chunk_count n (Z.to_nat m)) = ((Z.of_nat n + m - 1) / m)%Z.
Proof.
  intros Hm. destruct n as [| p]; simpl chunk_count.
  - simpl. symmetry. apply Z.div_small. lia.
  - rewrite Nat2Z.inj_succ, Nat2Z.inj_div, Z2Nat.id by lia.
    replace (Z.of_nat (S p) + m - 1)%Z with (Z.of_nat p + 1 * m)%Z by lia.
    rewrite Z.div_add by lia. lia.
Qed.

Lemma chunks_single {A} (m : nat) (l : list A) :
  l <> [] -> length l <= m -> chunks m l = [l].
Proof.
  intros Hne Hle. unfold chunks.
  destruct l as [| x l]; [congruence|].
  simpl length in *. simpl chunk_count.
  rewrite Nat.div_small by lia. simpl.
  unfold nth_chunk. simpl skipn. now rewrite firstn_all2.
Qed.

(** X5.  For [max_size >= 1], [chunker] makes [ceil(len(seq) / max_size)]
    chunks: none for an empty list, and the list itself as the only chunk
    when it is non-empty and no longer than [max_size]. *)
Theorem chunker_count {A : Type} (sq : list A) (max_size : Z) :
  (1 <= max_size)%Z ->
  exists cs : list (list A),
    Sorting.chunker sq max_size = inr cs /\
    Z.of_nat (length cs) = ((Z.of_nat (length sq) + max_size - 1) / max_size)%Z /\
    (sq = [] -> cs = []) /\
    (sq <> [] -> (Z.of_nat (length sq) <= max_size)%Z -> cs = [sq]).
Proof.
  intros Hm. exists (chunks (Z.to_nat max_size) sq).
  split; [apply chunker_pos; lia|]. split; [|split].
  - rewrite length_chunks. apply chunk_count_ceil. lia.
  - intros ->. reflexivity.
  - intros Hne Hle. apply chunks_single; [exact Hne | lia].
Qed.

Lemma chunker_count_witness :
  exists cs : list (list Z),
    Sorting.chunker [1; 2; 3; 4; 5; 6; 7]%Z 3 = inr cs /\
    Z.of_nat (length cs) = ((Z.of_nat (length [1; 2; 3; 4; 5; 6; 7]%Z) + 3 - 1) / 3)%Z /\
    ([1; 2; 3; 4; 5; 6; 7]%Z = [] -> cs = []) /\
    ([1; 2; 3; 4; 5; 6; 7]%Z <> [] ->
     (Z.of_nat (length [1; 2; 3; 4; 5; 6; 7]%Z) <= 3)%Z -> cs = [[1; 2; 3; 4; 5; 6; 7]%Z]).
Proof.
  apply (chunker_count [1; 2; 3; 4; 5; 6; 7]%Z 3). lia.
Defined.

(** ** The token budget on a group of one length *)

Lemma chunks_cons {A} (m : nat) (l : list A) :
  0 < m -> l <> [] -> chunks m l = firstn m l :: chunks m (skipn m l).
Proof.
  intros Hm Hne. unfold chunks.
  destruct (length l) as [| p] eqn:El.
  { destruct l; [congruence | discriminate]. }
  assert (Ec : chunk_count (length (skipn m l)) m = p / m).
  { rewrite length_skipn, El.
    destruct (Nat.le_gt_cases (S p) m) as [H | H].
    - replace (S p - m) with 0 by lia. simpl.
      symmetry. apply Nat.div_small. lia.
    - replace (S p - m) with (S (p - m)) by lia. simpl.
      replace p with ((p - m) + 1 * m) at 2 by lia.
      rewrite Nat.div_add by lia. lia. }
  rewrite Ec. simpl chunk_count. simpl seq.
  rewrite <- seq_shift, map_cons, map_map. f_equal.
  apply map_ext. intros i. unfold nth_chunk.
  now rewrite firstn_skipn_concat_step.
Qed.

Lemma pack_loop_uniform (max_size len : nat) (g : list tokens) :
  0 < len -> len <= max_size ->
  Forall (fun t : tokens => length t = len) g ->
  forall (cb : batch) (sz : nat),
    sz = length cb * len ->
    1 <= length cb <= max_size / len ->
    fst (Quantization.pack_loop max_size g cb sz) ++
    [snd (Quantization.pack_loop max_size g cb sz)] =
    chunks (max_size / len) (cb ++ g).
Proof.
  intros Hlen Hle.
  assert (Hq : max_size / len * len <= max_size < (max_size / len + 1) * len).
  { pose proof (Nat.div_mod_eq max_size len).
    pose proof (Nat.mod_upper_bound max_size len). nia. }
  induction g as [| b g IH]; intros Hg cb sz Hsz Hcb.
  - simpl. rewrite app_nil_r.
    symmetry. apply chunks_single; [|lia].
    destruct cb; [simpl in Hcb; lia | discriminate].
  - apply Forall_cons_iff in Hg. destruct Hg as [Hb Hg].
    simpl Quantization.pack_loop.
    destruct (max_size <? sz + length b) eqn:E.
    + apply Nat.ltb_lt in E.
      assert (Hfull : length cb = max_size / len) by nia.
      specialize (IH Hg [b] (length b)).
      destruct (Quantization.pack_loop max_size g [b] (length b)) as [ys last].
      simpl in *. rewrite IH; [|lia|].
      * rewrite (chunks_cons (max_size / len) (cb ++ b :: g)).
        -- rewrite <- Hfull.
           rewrite firstn_app, firstn_all, Nat.sub_diag. simpl firstn.
           rewrite app_nil_r.
           rewrite skipn_app, skipn_all, Nat.sub_diag. reflexivity.
        -- lia.
        -- destruct cb; discriminate.
      * split; [lia|]. apply Nat.div_le_lower_bound; lia.
    + apply Nat.ltb_ge in E.
      rewrite IH; [now rewrite <- app_assoc | exact Hg | |].
      * rewrite length_app. simpl. lia.
      * rewrite length_app. simpl. split; [lia|].
        assert (length cb <> max_size / len) by nia. lia.
Qed.

(** On a group of sequences of one length that fits the budget, the
    token-budget loop makes the chunks of [max_size // length] sequences. *)
Lemma pack_group_as_chunks (max_size len : nat) (g : list tokens) :
  0 < len -> len <= max_size ->
  Forall (fun t : tokens => length t = len) g ->
  Quantization.pack_group max_size g = chunks (max_size / len) g.
Proof.
  intros Hlen Hle Hg. unfold Quantization.pack_group.
  destruct g as [| b g]; [reflexivity|].
  pose proof Hg as Hg0.
  apply Forall_cons_iff in Hg. destruct Hg as [Hb Hg].
  simpl Quantization.pack_loop.
  assert (E : (max_size <? length b) = false) by (apply Nat.ltb_ge; lia).
  rewrite E.
  assert (Hq : 1 <= max_size / len) by (apply Nat.div_le_lower_bound; lia).
  pose proof (pack_loop_uniform max_size len g Hlen Hle Hg [b] (length b)) as H.
  destruct (Quantization.pack_loop max_size g [b] (length b)) as [ys last].
  simpl in H. rewrite <- H by (simpl; lia).
  destruct last as [| t last]; [|reflexivity].
  exfalso.
  assert (Hin : In (@nil tokens) (chunks (max_size / len) (b :: g))).
  { rewrite <- H by (simpl; lia). apply in_app_iff. right. now left. }
  pose proof (chunks_sizes (max_size / len) (b :: g) ltac:(lia)) as Hs.
  rewrite Forall_forall in Hs. specialize (Hs [] Hin). simpl in Hs. lia.
Qed.

(** X6.  On a group of sequences of length [len <= max_size] the
    token-budget loop of [quantization.py] produces exactly the batches
    [chunker] of [sorting.py] produces with [max_size // len] as its size. *)
Theorem token_budget_is_fixed_count (max_size len : nat) (g : list tokens) :
  0 < len -> len <= max_size ->
  Forall (fun t : tokens => length t = len) g ->
  Sorting.chunker g (Z.of_nat (max_size / len)) =
  inr (Quantization.pack_group max_size g).
Proof.
  intros Hlen Hle Hg.
  assert (Hq : 1 <= max_size / len) by (apply Nat.div_le_lower_bound; lia).
  rewrite chunker_pos by lia. rewrite Nat2Z.id.
  now rewrite (pack_group_as_chunks max_size len g).
Qed.

Lemma token_budget_is_fixed_count_witness :
  Sorting.chunker [[1; 2]; [3; 4]; [5; 6]; [7; 8]; [9; 10]]%Z (Z.of_nat (7 / 2)) =
  inr (Quantization.pack_group 7 [[1; 2]; [3; 4]; [5; 6]; [7; 8]; [9; 10]]%Z).
Proof.
  apply (token_budget_is_fixed_count 7 2); [lia | lia |].
  repeat constructor.
Defined.

Lemma token_count_uniform (k : nat) (b : batch) :
  Forall (fun t : tokens => length t = k) b -> token_count b = length b * k.
Proof.
  unfold token_count. induction 1 as [| x b Hx _ IH]; [reflexivity|].
  simpl. rewrite IH, Hx. reflexivity.
Qed.

(** The batches of the token-budget plan, seen from their group. *)
Lemma quantization_batch_bound (tokenized_inputs : list tokens) (max_size : nat) (b : batch) :
  Py.max (Py.keys (Bucketer.sorted_batches tokenized_inputs)) = inr max_size ->
  In b (Py.yielded (Quantization.batch_plan tokenized_inputs)) ->
  exists k,
    0 < k /\ k <= max_size /\ uniform_batch k b /\ length b <= max_size / k.
Proof.
  intros Hmax Hb.
  destruct (quantization_plan_cases tokenized_inputs) as [[E _] | (m & Hm & E)].
  { rewrite E in Hmax. discriminate. }
  rewrite Hmax in Hm. injection Hm as <-. rewrite E in Hb. simpl in Hb.
  destruct (quantization_batches_uniform tokenized_inputs max_size b Hmax Hb)
    as (g & Hg & Hbg & Hu).
  pose proof (sorted_batches_ok tokenized_inputs) as Hok.
  rewrite Forall_forall in Hok. destruct (Hok g Hg) as (Hpos & _ & Hall).
  assert (Hk : fst g <= max_size).
  { apply max_spec in Hmax. destruct Hmax as [_ Hle].
    rewrite Forall_forall in Hle. apply Hle. unfold Py.keys. now apply in_map. }
  exists (fst g). repeat split; try tauto; try lia; try apply Hu.
  rewrite (pack_group_as_chunks max_size (fst g) (snd g)) in Hbg by assumption.
  assert (Hq : 1 <= max_size / fst g) by (apply Nat.div_le_lower_bound; lia).
  pose proof (chunks_sizes (max_size / fst g) (snd g) ltac:(lia)) as Hs.
  rewrite Forall_forall in Hs. specialize (Hs b Hbg). simpl in Hs. lia.
Qed.

(** X7.  No batch of the token-budget generator exceeds the budget: the
    budget being the largest length of the input, the batch of one
    oversized sequence never occurs. *)
Theorem token_budget_never_exceeded
        (tokenized_inputs : list tokens) (max_size : nat) (b : batch) :
  Py.max (Py.keys (Bucketer.sorted_batches tokenized_inputs)) = inr max_size ->
  In b (Py.yielded (Quantization.batch_plan tokenized_inputs)) ->
  token_count b <= max_size.
Proof.
  intros Hmax Hb.
  destruct (quantization_batch_bound tokenized_inputs max_size b Hmax Hb)
    as (k & Hpos & Hk & [_ Hu] & Hlen).
  rewrite (token_count_uniform k b Hu).
  pose proof (Nat.Div0.mul_div_le max_size k). nia.
Qed.

Lemma token_budget_never_exceeded_witness :
  token_count [[1; 2; 3]; [4; 5; 6]]%Z <= 6.
Proof.
  apply (token_budget_never_exceeded
           [[1; 2; 3]; [7]; [4; 5; 6]; [8; 9; 10; 11; 12; 13]; [14; 15; 16]]%Z 6).
  - reflexivity.
  - simpl. auto.
Defined.

(** X8.  A sequence longer than half the longest sequence of the input is
    never batched with another one by the token-budget generator; in
    particular the longest sequences are processed one by one. *)
Theorem long_sequences_batched_alone
        (tokenized_inputs : list tokens) (max_size : nat) (b : batch) (t : tokens) :
  Py.max (Py.keys (Bucketer.sorted_batches tokenized_inputs)) = inr max_size ->
  In b (Py.yielded (Quantization.batch_plan tokenized_inputs)) ->
  In t b ->
  max_size < 2 * length t ->
  item_count b = 1.
Proof.
  intros Hmax Hb Ht Hlong.
  destruct (quantization_batch_bound tokenized_inputs max_size b Hmax Hb)
    as (k & Hpos & Hk & [Hne Hu] & Hlen).
  rewrite Forall_forall in Hu. rewrite (Hu t Ht) in Hlong.
  assert (max_size / k < 2) by (apply Nat.Div0.div_lt_upper_bound; lia).
  unfold item_count. destruct b; [congruence | simpl in *; lia].
Qed.

Lemma long_sequences_batched_alone_witness :
  item_count [[8; 9; 10; 11]]%Z = 1.
Proof.
  apply (long_sequences_batched_alone
           [[1; 2; 3; 4]; [7]; [8; 9; 10; 11]; [5]]%Z 4 [[8; 9; 10; 11]]%Z
           [8; 9; 10; 11]%Z).
  - reflexivity.
  - simpl. auto.
  - simpl. auto.
  - simpl. lia.
Defined.

(** ** The generators with their collaborators *)

Lemma outputs_total (batch_generate : batch -> list string) (bs : list batch) :
  (forall b, length (batch_generate b) = length b) ->
  list_sum (map (@length string) (map batch_generate bs)) = length (concat bs).
Proof.
  intros Hlen. rewrite length_concat, map_map. f_equal.
  apply map_ext. intros b. apply Hlen.
Qed.

(** X9.  When the model returns one output per sequence of a batch, the
    fixed-count generator (with [max_batch_size >= 1]) and the token-budget
    generator each deliver exactly one output per prompt with a non-empty
    tokenization, and the fixed-count generator delivers them in lists of
    1 to [max_batch_size] outputs and then returns normally. *)
Theorem one_output_per_nonempty_prompt
        (tokenizer : list string -> list tokens)
        (batch_generate : batch -> list string)
        (prompts : list string) (max_batch_size : Z) :
  (forall b, length (batch_generate b) = length b) ->
  (1 <= max_batch_size)%Z ->
  (list_sum (map (@length string)
       (Py.yielded (Sorting.predict_sorted_batches
                      tokenizer batch_generate prompts max_batch_size))) =
   length (filter nonempty (tokenizer prompts)) /\
   Forall (fun o => (1 <= Z.of_nat (length o) <= max_batch_size)%Z)
          (Py.yielded (Sorting.predict_sorted_batches
                         tokenizer batch_generate prompts max_batch_size)) /\
   Py.finish (Sorting.predict_sorted_batches
                tokenizer batch_generate prompts max_batch_size) =
   Sorting.all_processed) /\
  list_sum (map (@length string)
      (Py.yielded (Quantization.predict_sorted_batches
                     tokenizer batch_generate prompts))) =
  length (filter nonempty (tokenizer prompts)).
Proof.
  intros Hlen Hm.
  unfold Sorting.predict_sorted_batches, Quantization.predict_sorted_batches,
    Py.gen_map. simpl.
  pose proof (Permutation_length (sorted_batches_perm (tokenizer prompts))) as Hp.
  split; [split; [|split]|].
  - rewrite outputs_total by exact Hlen.
    rewrite sorting_batches_members by lia. exact Hp.
  - rewrite sorting_plan_pos by lia. simpl.
    apply Forall_forall. intros o Ho. apply in_map_iff in Ho.
    destruct Ho as (b & <- & Hb). rewrite Hlen.
    apply in_flat_map in Hb. destruct Hb as (g & _ & Hb).
    pose proof (chunks_sizes (Z.to_nat max_batch_size) (snd g) ltac:(lia)) as Hs.
    rewrite Forall_forall in Hs. specialize (Hs b Hb). simpl in Hs. lia.
  - rewrite sorting_plan_pos by lia. reflexivity.
  - rewrite outputs_total by exact Hlen.
    rewrite quantization_batches_members. exact Hp.
Qed.

Lemma one_output_per_nonempty_prompt_witness :
  list_sum (map (@length string)
      (Py.yielded (Quantization.predict_sorted_batches
                     (map (fun s => repeat 0%Z (String.length s)))
                     (map (fun _ : tokens => "out"%string))
                     ["ab"; ""; "c"; "de"]%string))) =
  length (filter nonempty
            (map (fun s => repeat 0%Z (String.length s)) ["ab"; ""; "c"; "de"]%string)).
Proof.
  apply (one_output_per_nonempty_prompt
           (map (fun s => repeat 0%Z (String.length s)))
           (map (fun _ : tokens => "out"%string))
           ["ab"; ""; "c"; "de"]%string 2).
  - intros b. apply length_map.
  - lia.
Defined.

(** ** [batch_generate_using_ctrans] *)

Section WindowFacts.
Context {A : Type}.

Lemma slice_nonneg (l : list A) (lo hi : Z) :
  (0 <= lo)%Z -> (lo <= hi)%Z ->
  Py.slice l lo hi = firstn (Z.to_nat (hi - lo)) (skipn (Z.to_nat lo) l).
Proof.
  intros Hlo Hhi. unfold Py.slice, Py.slice_index.
  assert (E1 : (lo <? 0)%Z = false) by (apply Z.ltb_ge; lia).
  assert (E2 : (hi <? 0)%Z = false) by (apply Z.ltb_ge; lia).
  rewrite E1, E2.
  destruct (Z.le_gt_cases (Z.of_nat (length l)) lo) as [H | H].
  - rewrite (Z.min_r lo) by lia. rewrite Nat2Z.id.
    rewrite !skipn_all2 by lia. now rewrite !firstn_nil.
  - rewrite (Z.min_l lo) by lia.
    destruct (Z.le_gt_cases hi (Z.of_nat (length l))) as [H' | H'].
    + now rewrite Z.min_l by lia.
    + rewrite Z.min_r by lia.
      rewrite !firstn_all2; [reflexivity | |]; rewrite length_skipn; lia.
Qed.

Lemma window_incl (a b : nat) (l : list A) (x : A) :
  In x (firstn a (skipn b l)) -> In x l.
Proof.
  intros H. rewrite <- (firstn_skipn b l). apply in_or_app. right.
  rewrite <- (firstn_skipn a (skipn b l)). apply in_or_app. now left.
Qed.

Lemma window_length (a b : nat) (l : list A) :
  length (firstn a (skipn b l)) = Nat.min a (length l - b).
Proof.
  now rewrite length_firstn, length_skipn.
Qed.

Lemma firstn_mono (a b : nat) (l : list A) (x : A) :
  a <= b -> In x (firstn a l) -> In x (firstn b l).
Proof.
  intros Hab H. rewrite <- (Nat.min_l a b Hab), <- firstn_firstn in H.
  apply (window_incl a 0 (firstn b l) x). exact H.
Qed.

End WindowFacts.

Lemma range_positions (n : nat) (m : Z) :
  (0 < m)%Z ->
  Py.range 0 (Z.of_nat n) m =
  inr (map (fun i => (0 + Z.of_nat i * m)%Z) (seq 0 (chunk_count n (Z.to_nat m)))).
Proof.
  intros Hm. unfold Py.range.
  assert (E : (m =? 0)%Z = false) by (apply Z.eqb_neq; lia).
  now rewrite E, range_len_pos.
Qed.

Lemma range_positions_inside (n : nat) (m : Z) :
  (0 < m)%Z ->
  Forall (fun p => (0 <= p < Z.of_nat n)%Z)
         (map (fun i => (0 + Z.of_nat i * m)%Z) (seq 0 (chunk_count n (Z.to_nat m)))).
Proof.
  intros Hm. apply Forall_forall. intros p Hp. apply in_map_iff in Hp.
  destruct Hp as (i & <- & Hi). apply in_seq in Hi.
  assert (i * Z.to_nat m < n) by (apply chunk_count_inside; lia).
  nia.
Qed.

Lemma max_nonempty (l : list nat) : l <> [] -> exists m, Py.max l = inr m.
Proof.
  destruct l as [| x r]; [congruence|]. intros _. simpl. eauto.
Qed.

Section CtransFacts.
Variable tokenize : string -> list string.
Variable prompts : list string.

Lemma loop_cons_inv (i : Z) (rest : list Z) (mbs : Z)
      (calls : list (list (list string) * nat)) :
  Ctrans.loop tokenize prompts (i :: rest) mbs = inr calls ->
  exists m calls',
    Py.max (map (@length string) (map tokenize (Py.slice prompts i (i + mbs)))) = inr m /\
    Ctrans.loop tokenize prompts rest (Z.of_nat m) = inr calls' /\
    calls = (map tokenize (Py.slice prompts i (i + mbs)), m) :: calls'.
Proof.
  simpl.
  destruct (Py.max (map (@length string) (map tokenize (Py.slice prompts i (i + mbs)))))
    as [e | m] eqn:E1; [discriminate|].
  destruct (Ctrans.loop tokenize prompts rest (Z.of_nat m)) as [e | calls'] eqn:E2;
    [discriminate|].
  intros E. injection E as <-. exists m, calls'. repeat split. exact E2.
Qed.

(** The batch taken at an in-range position, and the width it hands to the
    next iteration. *)
Lemma batch_at (i mbs : Z) :
  (0 <= i)%Z -> (0 <= mbs)%Z ->
  Py.slice prompts i (i + mbs) =
  firstn (Z.to_nat mbs) (skipn (Z.to_nat i) prompts).
Proof.
  intros Hi Hm. rewrite slice_nonneg by lia. f_equal. lia.
Qed.

Lemma width_after (lo hi : nat) (b : list string) (m : nat) :
  Forall (fun p => lo <= length (tokenize p) <= hi) b ->
  Py.max (map (@length string) (map tokenize b)) = inr m ->
  lo <= m <= hi.
Proof.
  intros Hb Hmax. apply max_spec in Hmax. destruct Hmax as [Hin _].
  rewrite map_map in Hin. apply in_map_iff in Hin.
  destruct Hin as (p & <- & Hp). rewrite Forall_forall in Hb. now apply Hb.
Qed.

Lemma window_bounds (lo hi a b : nat) :
  Forall (fun p => lo <= length (tokenize p) <= hi) prompts ->
  Forall (fun p => lo <= length (tokenize p) <= hi) (firstn a (skipn b prompts)).
Proof.
  intros H. rewrite Forall_forall in *. intros p Hp.
  apply H. eapply window_incl. exact Hp.
Qed.

(** If every prompt has at least one token, the loop never fails and calls
    the model once per position. *)
Lemma loop_succeeds :
  Forall (fun p => tokenize p <> []) prompts ->
  forall (ps : list Z) (mbs : Z),
    (1 <= mbs)%Z ->
    Forall (fun p => (0 <= p < Z.of_nat (length prompts))%Z) ps ->
    exists calls,
      Ctrans.loop tokenize prompts ps mbs = inr calls /\
      length calls = length ps /\
      Forall (fun c => fst c <> [] /\ 1 <= snd c) calls.
Proof.
  intros Htok. induction ps as [| i rest IH]; intros mbs Hm Hps.
  - exists []. repeat split; constructor.
  - apply Forall_cons_iff in Hps. destruct Hps as [Hi Hrest].
    simpl. rewrite batch_at by lia.
    set (b := firstn (Z.to_nat mbs) (skipn (Z.to_nat i) prompts)).
    assert (Hb : b <> []).
    { intros E. apply (f_equal (@length string)) in E.
      unfold b in E. rewrite window_length in E. simpl in E. lia. }
    assert (Hbt : Forall (fun p => 1 <= length (tokenize p) <= length (tokenize p)) b).
    { apply Forall_forall. intros p Hp.
      rewrite Forall_forall in Htok.
      assert (tokenize p <> []) by (apply Htok; eapply window_incl; exact Hp).
      destruct (tokenize p); [congruence | simpl; lia]. }
    destruct (max_nonempty (map (@length string) (map tokenize b))) as [m Hmax].
    { destruct b; [congruence | discriminate]. }
    rewrite Hmax.
    assert (1 <= m).
    { apply max_spec in Hmax. destruct Hmax as [Hin _].
      rewrite map_map in Hin. apply in_map_iff in Hin.
      destruct Hin as (p & <- & Hp). rewrite Forall_forall in Hbt.
      now apply Hbt. }
    destruct (IH (Z.of_nat m)) as (calls & -> & Hlen & Hall); [lia | exact Hrest |].
    exists ((map tokenize b, m) :: calls). repeat split.
    + simpl. now rewrite Hlen.
    + constructor; [|exact Hall]. simpl. split; [|lia].
      destruct b; [congruence | discriminate].
Qed.

End CtransFacts.

(** X10.  With [max_batch_size >= 1] and prompts that all have at least
    one token, [batch_generate_using_ctrans] does not fail and calls the
    model [ceil(len(prompts) / max_batch_size)] times, each time with at
    least one input, whatever widths the later slices take. *)
Theorem ctrans_call_count
        (tokenize : string -> list string)
        (generate : list (list string) -> nat -> list string)
        (prompts : list string) (max_batch_size : Z) :
  (1 <= max_batch_size)%Z ->
  Forall (fun p => tokenize p <> []) prompts ->
  exists calls,
    Ctrans.model_calls tokenize prompts max_batch_size = inr calls /\
    Ctrans.batch_generate_using_ctrans tokenize generate prompts max_batch_size =
    inr (flat_map (fun c => generate (fst c) (snd c)) calls) /\
    Z.of_nat (length calls) =
    ((Z.of_nat (length prompts) + max_batch_size - 1) / max_batch_size)%Z /\
    Forall (fun c => fst c <> []) calls.
Proof.
  intros Hm Htok.
  unfold Ctrans.batch_generate_using_ctrans, Ctrans.model_calls.
  rewrite range_positions by lia.
  destruct (loop_succeeds tokenize prompts Htok
              (map (fun i => (0 + Z.of_nat i * max_batch_size)%Z)
                   (seq 0 (chunk_count (length prompts) (Z.to_nat max_batch_size))))
              max_batch_size Hm)
    as (calls & E & Hlen & Hall).
  { apply range_positions_inside. lia. }
  exists calls. rewrite E. repeat split.
  - rewrite Hlen, length_map, length_seq. apply chunk_count_ceil. lia.
  - eapply Forall_impl; [|exact Hall]. intros c [Hc _]. exact Hc.
Qed.

Lemma ctrans_call_count_witness :
  exists calls,
    Ctrans.model_calls (fun s => repeat "t"%string (String.length s))
                       ["aaaaa"; "b"; "c"; "d"; "e"]%string 2 = inr calls /\
    Ctrans.batch_generate_using_ctrans
      (fun s => repeat "t"%string (String.length s))
      (fun inputs _ => map (fun _ => "out"%string) inputs)
      ["aaaaa"; "b"; "c"; "d"; "e"]%string 2 =
    inr (flat_map (fun c => map (fun _ => "out"%string) (fst c)) calls) /\
    Z.of_nat (length calls) =
    ((Z.of_nat (length ["aaaaa"; "b"; "c"; "d"; "e"]%string) + 2 - 1) / 2)%Z /\
    Forall (fun c => fst c <> []) calls.
Proof.
  apply (ctrans_call_count
           (fun s => repeat "t"%string (String.length s))
           (fun inputs _ => map (fun _ => "out"%string) inputs)
           ["aaaaa"; "b"; "c"; "d"; "e"]%string 2).
  - lia.
  - repeat constructor; discriminate.
Defined.

Lemma range_neg (n : nat) (m : Z) :
  (m < 0)%Z -> Py.range 0 (Z.of_nat n) m = inr [].
Proof.
  intros Hm. unfold Py.range, Py.range_len.
  assert (E : (m =? 0)%Z = false) by (apply Z.eqb_neq; lia).
  assert (E1 : (0 <? m)%Z = false) by (apply Z.ltb_ge; lia).
  assert (E2 : (Z.of_nat n <? 0)%Z = false) by (apply Z.ltb_ge; lia).
  now rewrite E, E1, E2.
Qed.

Lemma max_all_zero (l : list nat) :
  l <> [] -> Forall (fun k => k = 0) l -> Py.max l = inr 0.
Proof.
  intros Hne Hall. destruct (max_nonempty l Hne) as [m Hmax].
  rewrite Hmax. apply max_spec in Hmax. destruct Hmax as [Hin _].
  rewrite Forall_forall in Hall. now rewrite (Hall m Hin).
Qed.

(** X11.  When the prompts of the first slice all tokenize to nothing and
    prompts remain after it, [batch_generate_using_ctrans] fails with
    [ValueError]: the width of the second slice becomes 0 and [max] is
    applied to an empty sequence. *)
Theorem ctrans_fails_after_tokenless_batch
        (tokenize : string -> list string)
        (generate : list (list string) -> nat -> list string)
        (prompts : list string) (max_batch_size : Z) :
  (1 <= max_batch_size)%Z ->
  (max_batch_size < Z.of_nat (length prompts))%Z ->
  Forall (fun p => tokenize p = []) (firstn (Z.to_nat max_batch_size) prompts) ->
  Ctrans.batch_generate_using_ctrans tokenize generate prompts max_batch_size =
  inl Py.ValueError.
Proof.
  intros Hm Hn Htok.
  unfold Ctrans.batch_generate_using_ctrans, Ctrans.model_calls.
  rewrite range_positions by lia.
  assert (Hc : exists k, chunk_count (length prompts) (Z.to_nat max_batch_size) = S (S k)).
  { destruct (length prompts) as [| p] eqn:El; [lia|]. simpl.
    assert (1 <= p / Z.to_nat max_batch_size)
      by (apply Nat.div_le_lower_bound; lia).
    exists (p / Z.to_nat max_batch_size - 1). lia. }
  destruct Hc as [k ->].
  cbn [seq map Ctrans.loop].
  rewrite batch_at by lia.
  replace (Z.to_nat (0 + Z.of_nat 0 * max_batch_size)) with 0 by lia.
  cbn [skipn].
  rewrite max_all_zero.
  - rewrite batch_at by lia.
    replace (Z.to_nat (Z.of_nat 0)) with 0 by lia. reflexivity.
  - intros E. apply (f_equal (@length nat)) in E.
    rewrite !length_map, length_firstn in E. simpl in E. lia.
  - rewrite map_map. apply Forall_forall. intros x Hx.
    apply in_map_iff in Hx. destruct Hx as (p & <- & Hp).
    rewrite Forall_forall in Htok. now rewrite (Htok p Hp).
Qed.

Lemma ctrans_fails_after_tokenless_batch_witness :
  Ctrans.batch_generate_using_ctrans
    (fun s => repeat "t"%string (String.length s))
    (fun inputs _ => map (fun _ => "out"%string) inputs)
    [""; ""; "abc"]%string 2 = inl Py.ValueError.
Proof.
  apply (ctrans_fails_after_tokenless_batch
           (fun s => repeat "t"%string (String.length s))
           (fun inputs _ => map (fun _ => "out"%string) inputs)
           [""; ""; "abc"]%string 2).
  - lia.
  - simpl. lia.
  - repeat constructor.
Defined.

(** X12.  [batch_generate_using_ctrans] does not validate
    [max_batch_size]: with 0 it raises [ValueError], even for an empty list
    of prompts, and with a negative value it returns an empty list without
    processing any prompt. *)
Theorem ctrans_nonpositive_batch_size
        (tokenize : string -> list string)
        (generate : list (list string) -> nat -> list string)
        (prompts : list string) (max_batch_size : Z) :
  (max_batch_size <= 0)%Z ->
  Ctrans.batch_generate_using_ctrans tokenize generate prompts max_batch_size =
  if (max_batch_size =? 0)%Z then inl Py.ValueError else inr [].
Proof.
  intros Hm. unfold Ctrans.batch_generate_using_ctrans, Ctrans.model_calls.
  destruct (max_batch_size =? 0)%Z eqn:E.
  - apply Z.eqb_eq in E. subst. reflexivity.
  - apply Z.eqb_neq in E. rewrite range_neg by lia. reflexivity.
Qed.

Lemma ctrans_nonpositive_batch_size_witness :
  Ctrans.batch_generate_using_ctrans
    (fun s => repeat "t"%string (String.length s))
    (fun inputs _ => map (fun _ => "out"%string) inputs)
    ["ab"; "c"]%string (-3) = inr [].
Proof.
  apply (ctrans_nonpositive_batch_size
           (fun s => repeat "t"%string (String.length s))
           (fun inputs _ => map (fun _ => "out"%string) inputs)
           ["ab"; "c"]%string (-3)).
  lia.
Defined.

(** X13.  When the prompts fit in one slice ([0 < len(prompts) <=
    max_batch_size]) the model is called once, with the tokens of all the
    prompts in order and the largest token count as its [max_batch_size]. *)
Theorem ctrans_single_batch
        (tokenize : string -> list string)
        (generate : list (list string) -> nat -> list string)
        (prompts : list string) (max_batch_size : Z) :
  prompts <> [] ->
  (Z.of_nat (length prompts) <= max_batch_size)%Z ->
  exists m,
    Py.max (map (@length string) (map tokenize prompts)) = inr m /\
    Ctrans.batch_generate_using_ctrans tokenize generate prompts max_batch_size =
    inr (generate (map tokenize prompts) m).
Proof.
  intros Hne Hle.
  assert (Hn : 0 < length prompts) by (destruct prompts; [congruence | simpl; lia]).
  destruct (max_nonempty (map (@length string) (map tokenize prompts))) as [m Hmax].
  { destruct prompts; [congruence | discriminate]. }
  exists m. split; [exact Hmax|].
  unfold Ctrans.batch_generate_using_ctrans, Ctrans.model_calls.
  rewrite range_positions by lia.
  assert (Hc : chunk_count (length prompts) (Z.to_nat max_batch_size) = 1).
  { destruct (length prompts) as [| p]; [lia|]. simpl.
    rewrite Nat.div_small by lia. reflexivity. }
  rewrite Hc. cbn [seq map Ctrans.loop].
  rewrite batch_at by lia.
  replace (Z.to_nat (0 + Z.of_nat 0 * max_batch_size)) with 0 by lia.
  cbn [skipn]. rewrite firstn_all2 by lia.
  rewrite Hmax. simpl. now rewrite app_nil_r.
Qed.

Lemma ctrans_single_batch_witness :
  exists m,
    Py.max (map (@length string)
                (map (fun s => repeat "t"%string (String.length s))
                     ["ab"; "c"; "def"]%string)) = inr m /\
    Ctrans.batch_generate_using_ctrans
      (fun s => repeat "t"%string (String.length s))
      (fun inputs _ => map (fun _ => "out"%string) inputs)
      ["ab"; "c"; "def"]%string Ctrans.default_max_batch_size =
    inr (map (fun _ => "out"%string)
             (map (fun s => repeat "t"%string (String.length s))
                  ["ab"; "c"; "def"]%string)).
Proof.
  apply (ctrans_single_batch
           (fun s => repeat "t"%string (String.length s))
           (fun inputs _ => map (fun _ => "out"%string) inputs)
           ["ab"; "c"; "def"]%string Ctrans.default_max_batch_size).
  - discriminate.
  - unfold Ctrans.default_max_batch_size. simpl. lia.
Defined.

Section CtransBounds.
Variable tokenize : string -> list string.
Variable prompts : list string.

Lemma width_lower (lo : nat) (b : list string) (m : nat) :
  Forall (fun p => lo <= length (tokenize p)) b ->
  Py.max (map (@length string) (map tokenize b)) = inr m ->
  lo <= m.
Proof.
  intros Hb Hmax. apply max_spec in Hmax. destruct Hmax as [Hin _].
  rewrite map_map in Hin. apply in_map_iff in Hin.
  destruct Hin as (p & <- & Hp). rewrite Forall_forall in Hb. now apply Hb.
Qed.

Lemma width_upper (hi : nat) (b : list string) (m : nat) :
  Forall (fun p => length (tokenize p) <= hi) b ->
  Py.max (map (@length string) (map tokenize b)) = inr m ->
  m <= hi.
Proof.
  intros Hb Hmax. apply max_spec in Hmax. destruct Hmax as [Hin _].
  rewrite map_map in Hin. apply in_map_iff in Hin.
  destruct Hin as (p & <- & Hp). rewrite Forall_forall in Hb. now apply Hb.
Qed.

Lemma window_all (P : string -> Prop) (a b : nat) :
  Forall P prompts -> Forall P (firstn a (skipn b prompts)).
Proof.
  intros H. rewrite Forall_forall in *. intros p Hp.
  apply H. eapply window_incl. exact Hp.
Qed.

Lemma inputs_sent_cons (inputs : list (list string)) (m : nat)
      (calls : list (list (list string) * nat)) :
  Ctrans.inputs_sent ((inputs, m) :: calls) = inputs ++ Ctrans.inputs_sent calls.
Proof. reflexivity. Qed.

(** When every prompt has at least [w0] tokens, the slices never get
    narrower than [w0]: the [w0] prompts that follow each position are
    sent to the model. *)
Lemma loop_covers (w0 : nat) :
  Forall (fun p => w0 <= length (tokenize p)) prompts ->
  forall (ps : list Z) (mbs : Z) (calls : list (list (list string) * nat)),
    (Z.of_nat w0 <= mbs)%Z ->
    Forall (fun p => (0 <= p)%Z) ps ->
    Ctrans.loop tokenize prompts ps mbs = inr calls ->
    forall q x,
      In q ps -> In x (firstn w0 (skipn (Z.to_nat q) prompts)) ->
      In (tokenize x) (Ctrans.inputs_sent calls).
Proof.
  intros Htok. induction ps as [| i rest IH]; intros mbs calls Hm Hps Hloop q x Hq Hx.
  - contradiction.
  - apply Forall_cons_iff in Hps. destruct Hps as [Hi Hrest].
    apply loop_cons_inv in Hloop. destruct Hloop as (m & calls' & Hmax & Hloop & ->).
    rewrite batch_at in Hmax by lia.
    rewrite inputs_sent_cons. apply in_or_app.
    destruct Hq as [<- | Hq].
    + left. rewrite batch_at by lia. apply in_map.
      apply firstn_mono with (a := w0); [lia | exact Hx].
    + right.
      assert (Hw : (Z.of_nat w0 <= Z.of_nat m)%Z).
      { apply Nat2Z.inj_le.
        apply (width_lower w0 _ m (window_all _ _ _ Htok) Hmax). }
      exact (IH (Z.of_nat m) calls' Hw Hrest Hloop q x Hq Hx).
Qed.

(** When no prompt has more than [hi] tokens, every slice after the first
    holds at most [hi] prompts. *)
Lemma loop_upper (hi : nat) :
  Forall (fun p => length (tokenize p) <= hi) prompts ->
  forall (ps : list Z) (mbs : Z) (calls : list (list (list string) * nat)),
    (0 <= mbs)%Z ->
    Forall (fun p => (0 <= p)%Z) ps ->
    Ctrans.loop tokenize prompts ps mbs = inr calls ->
    length (Ctrans.inputs_sent calls) <=
    match ps with
    | [] => 0
    | _ :: rest => Z.to_nat mbs + length rest * hi
    end.
Proof.
  intros Htok. induction ps as [| i rest IH]; intros mbs calls Hm Hps Hloop.
  - simpl in Hloop. injection Hloop as <-. reflexivity.
  - apply Forall_cons_iff in Hps. destruct Hps as [Hi Hrest].
    apply loop_cons_inv in Hloop. destruct Hloop as (m & calls' & Hmax & Hloop & ->).
    rewrite batch_at in Hmax |- * by lia.
    rewrite inputs_sent_cons, length_app, length_map.
    pose proof (firstn_le_length (Z.to_nat mbs) (skipn (Z.to_nat i) prompts)) as Hb.
    pose proof (width_upper hi _ m (window_all _ _ _ Htok) Hmax) as Hw.
    specialize (IH (Z.of_nat m) calls' ltac:(lia) Hrest Hloop).
    destruct rest as [| j rest']; simpl in *; [lia|].
    rewrite Nat2Z.id in IH. nia.
Qed.

(** When every prompt has at least [lo] tokens, every slice after the first
    holds [lo] prompts, or all that remain. *)
Lemma loop_lower (lo : nat) :
  Forall (fun p => lo <= length (tokenize p)) prompts ->
  forall (ps : list Z) (mbs : Z) (calls : list (list (list string) * nat)),
    (0 <= mbs)%Z ->
    Forall (fun p => (0 <= p)%Z) ps ->
    Ctrans.loop tokenize prompts ps mbs = inr calls ->
    match ps with
    | [] => 0
    | p :: rest =>
        Nat.min (Z.to_nat mbs) (length prompts - Z.to_nat p) +
        list_sum (map (fun q => Nat.min lo (length prompts - Z.to_nat q)) rest)
    end <= length (Ctrans.inputs_sent calls).
Proof.
  intros Htok. induction ps as [| i rest IH]; intros mbs calls Hm Hps Hloop.
  - lia.
  - apply Forall_cons_iff in Hps. destruct Hps as [Hi Hrest].
    apply loop_cons_inv in Hloop. destruct Hloop as (m & calls' & Hmax & Hloop & ->).
    rewrite batch_at in Hmax |- * by lia.
    rewrite inputs_sent_cons, length_app, length_map, window_length.
    pose proof (width_lower lo _ m (window_all _ _ _ Htok) Hmax) as Hw.
    specialize (IH (Z.of_nat m) calls' ltac:(lia) Hrest Hloop).
    destruct rest as [| j rest']; simpl in *; [lia|].
    rewrite Nat2Z.id in IH. lia.
Qed.

End CtransBounds.

Lemma results_length (generate : list (list string) -> nat -> list string)
      (calls : list (list (list string) * nat)) :
  (forall inputs m, length (generate inputs m) = length inputs) ->
  length (flat_map (fun c => generate (fst c) (snd c)) calls) =
  length (Ctrans.inputs_sent calls).
Proof.
  intros Hgen. induction calls as [| [inputs m] calls IH]; [reflexivity|].
  simpl. rewrite inputs_sent_cons, !length_app, Hgen, IH. reflexivity.
Qed.

Lemma chunk_count_multiple (k m : nat) : 0 < m -> chunk_count (k * m) m = k.
Proof.
  intros Hm. destruct k as [| k]; [reflexivity|].
  unfold chunk_count.
  destruct (S k * m) as [| p] eqn:E; [simpl in E; lia|].
  assert (p / m = k); [|lia].
  symmetry. apply (Nat.div_unique p m k (m - 1)); [lia|]. simpl in E. nia.
Qed.

Lemma list_sum_lower (f : Z -> nat) (c : nat) (l : list Z) :
  Forall (fun q => c <= f q) l -> length l * c <= list_sum (map f l).
Proof.
  induction 1 as [| q l Hq _ IH]; simpl; lia.
Qed.

(** X14.  When every prompt has at least [max_batch_size] tokens, the
    slices never get narrower than the step of the [range]: the function
    does not fail and the tokens of every prompt are sent to the model at
    least once. *)
Theorem ctrans_covers_all_prompts
        (tokenize : string -> list string)
        (prompts : list string) (max_batch_size : Z) :
  (1 <= max_batch_size)%Z ->
  Forall (fun p => (max_batch_size <= Z.of_nat (length (tokenize p)))%Z) prompts ->
  exists calls,
    Ctrans.model_calls tokenize prompts max_batch_size = inr calls /\
    forall p, In p prompts -> In (tokenize p) (Ctrans.inputs_sent calls).
Proof.
  intros Hm Htok.
  assert (Hne : Forall (fun p => tokenize p <> []) prompts).
  { eapply Forall_impl; [|exact Htok]. intros p Hp E.
    cbv beta in Hp. rewrite E in Hp. simpl in Hp. lia. }
  assert (Hlo : Forall (fun p => Z.to_nat max_batch_size <= length (tokenize p)) prompts).
  { eapply Forall_impl; [|exact Htok]. intros p Hp. cbv beta in Hp. lia. }
  unfold Ctrans.model_calls. rewrite range_positions by lia.
  pose proof (range_positions_inside (length prompts) max_batch_size ltac:(lia)) as Hin.
  destruct (loop_succeeds tokenize prompts Hne _ max_batch_size Hm Hin)
    as (calls & E & _ & _).
  exists calls. split; [exact E|].
  intros p Hp.
  rewrite <- (chunks_cover (Z.to_nat max_batch_size) prompts ltac:(lia)) in Hp.
  apply in_concat in Hp. destruct Hp as (c & Hc & Hpc).
  unfold chunks in Hc. apply in_map_iff in Hc. destruct Hc as (i & <- & Hi).
  refine (loop_covers tokenize prompts (Z.to_nat max_batch_size) Hlo _
            max_batch_size calls _ _ E (0 + Z.of_nat i * max_batch_size)%Z p _ _).
  - lia.
  - eapply Forall_impl; [|exact Hin]. intros q Hq. cbv beta in Hq. lia.
  - apply in_map_iff. exists i. split; [reflexivity | exact Hi].
  - unfold nth_chunk in Hpc.
    replace (Z.to_nat (0 + Z.of_nat i * max_batch_size))
      with (i * Z.to_nat max_batch_size) by nia.
    exact Hpc.
Qed.

Lemma ctrans_covers_all_prompts_witness :
  exists calls,
    Ctrans.model_calls (fun s => repeat "t"%string (String.length s))
                       ["abc"; "de"; "fgh"; "ij"; "kl"]%string 2 = inr calls /\
    forall p, In p ["abc"; "de"; "fgh"; "ij"; "kl"]%string ->
              In (repeat "t"%string (String.length p)) (Ctrans.inputs_sent calls).
Proof.
  apply (ctrans_covers_all_prompts
           (fun s => repeat "t"%string (String.length s))
           ["abc"; "de"; "fgh"; "ij"; "kl"]%string 2).
  - lia.
  - repeat constructor; simpl; lia.
Defined.

(** X15.  Prompts are dropped when they are short.  If every prompt has at
    least one token and fewer than [max_batch_size], and the prompts make
    [k >= 2] full slices, the function returns fewer results than it was
    given prompts (the model returning one result per input): every slice
    after the first is narrower than the step of the [range]. *)
Theorem ctrans_drops_short_prompts
        (tokenize : string -> list string)
        (generate : list (list string) -> nat -> list string)
        (prompts : list string) (max_batch_size : Z) (k : nat) :
  (forall inputs m, length (generate inputs m) = length inputs) ->
  (1 <= max_batch_size)%Z ->
  Forall (fun p => (1 <= Z.of_nat (length (tokenize p)) < max_batch_size)%Z) prompts ->
  length prompts = k * Z.to_nat max_batch_size ->
  2 <= k ->
  exists results,
    Ctrans.batch_generate_using_ctrans tokenize generate prompts max_batch_size =
    inr results /\
    length results < length prompts.
Proof.
  intros Hgen Hm Htok Hn Hk.
  assert (Hne : Forall (fun p => tokenize p <> []) prompts).
  { eapply Forall_impl; [|exact Htok]. intros p Hp E.
    cbv beta in Hp. rewrite E in Hp. simpl in Hp. lia. }
  assert (Hhi : Forall (fun p => length (tokenize p) <= Z.to_nat max_batch_size - 1) prompts).
  { eapply Forall_impl; [|exact Htok]. intros p Hp. cbv beta in Hp. lia. }
  unfold Ctrans.batch_generate_using_ctrans, Ctrans.model_calls.
  rewrite range_positions by lia.
  pose proof (range_positions_inside (length prompts) max_batch_size ltac:(lia)) as Hin.
  destruct (loop_succeeds tokenize prompts Hne _ max_batch_size ltac:(lia) Hin)
    as (calls & E & _ & _).
  rewrite E. eexists. split; [reflexivity|].
  rewrite results_length by exact Hgen.
  assert (Hpos : Forall (fun p => (0 <= p)%Z)
                   (map (fun i => (0 + Z.of_nat i * max_batch_size)%Z)
                        (seq 0 (chunk_count (length prompts) (Z.to_nat max_batch_size))))).
  { eapply Forall_impl; [|exact Hin]. intros q Hq. cbv beta in Hq. lia. }
  pose proof (loop_upper tokenize prompts _ Hhi _ max_batch_size calls
                         ltac:(lia) Hpos E) as Hup.
  rewrite Hn, chunk_count_multiple in Hup by lia.
  destruct k as [| k']; [lia|].
  cbn [seq map] in Hup. rewrite length_map, length_seq in Hup.
  rewrite Hn. nia.
Qed.

Lemma ctrans_drops_short_prompts_witness :
  exists results,
    Ctrans.batch_generate_using_ctrans
      (fun s => repeat "t"%string (String.length s))
      (fun inputs _ => map (fun _ => "out"%string) inputs)
      ["ab"; "c"; "de"; "f"; "g"; "hi"; "j"; "k"]%string
      Ctrans.default_max_batch_size = inr results /\
    length results < length ["ab"; "c"; "de"; "f"; "g"; "hi"; "j"; "k"]%string.
Proof.
  apply (ctrans_drops_short_prompts
           (fun s => repeat "t"%string (String.length s))
           (fun inputs _ => map (fun _ => "out"%string) inputs)
           ["ab"; "c"; "de"; "f"; "g"; "hi"; "j"; "k"]%string
           Ctrans.default_max_batch_size 2).
  - intros inputs m. apply length_map.
  - unfold Ctrans.default_max_batch_size. lia.
  - unfold Ctrans.default_max_batch_size. repeat constructor; simpl; lia.
  - reflexivity.
  - lia.
Defined.

(** X16.  Prompts are repeated when they are long.  If every prompt has
    more than [max_batch_size] tokens and the prompts make [k >= 3] full
    slices, the function returns more results than it was given prompts
    (the model returning one result per input): the slices after the first
    are wider than the step of the [range] and overlap. *)
Theorem ctrans_repeats_long_prompts
        (tokenize : string -> list string)
        (generate : list (list string) -> nat -> list string)
        (prompts : list string) (max_batch_size : Z) (k : nat) :
  (forall inputs m, length (generate inputs m) = length inputs) ->
  (1 <= max_batch_size)%Z ->
  Forall (fun p => (max_batch_size < Z.of_nat (length (tokenize p)))%Z) prompts ->
  length prompts = k * Z.to_nat max_batch_size ->
  3 <= k ->
  exists results,
    Ctrans.batch_generate_using_ctrans tokenize generate prompts max_batch_size =
    inr results /\
    length prompts < length results.
Proof.
  intros Hgen Hm Htok Hn Hk.
  assert (Hne : Forall (fun p => tokenize p <> []) prompts).
  { eapply Forall_impl; [|exact Htok]. intros p Hp E.
    cbv beta in Hp. rewrite E in Hp. simpl in Hp. lia. }
  assert (Hlo : Forall (fun p => Z.to_nat max_batch_size + 1 <= length (tokenize p)) prompts).
  { eapply Forall_impl; [|exact Htok]. intros p Hp. cbv beta in Hp. lia. }
  unfold Ctrans.batch_generate_using_ctrans, Ctrans.model_calls.
  rewrite range_positions by lia.
  pose proof (range_positions_inside (length prompts) max_batch_size ltac:(lia)) as Hin.
  destruct (loop_succeeds tokenize prompts Hne _ max_batch_size ltac:(lia) Hin)
    as (calls & E & _ & _).
  rewrite E. eexists. split; [reflexivity|].
  rewrite results_length by exact Hgen.
  assert (Hpos : Forall (fun p => (0 <= p)%Z)
                   (map (fun i => (0 + Z.of_nat i * max_batch_size)%Z)
                        (seq 0 (chunk_count (length prompts) (Z.to_nat max_batch_size))))).
  { eapply Forall_impl; [|exact Hin]. intros q Hq. cbv beta in Hq. lia. }
  pose proof (loop_lower tokenize prompts _ Hlo _ max_batch_size calls
                         ltac:(lia) Hpos E) as Hlow.
  rewrite Hn, chunk_count_multiple in Hlow by lia.
  rewrite Hn.
  set (M := Z.to_nat max_batch_size) in *.
  destruct k as [| [| k']]; [lia | lia |].
  cbn [seq map list_sum] in Hlow.
  assert (Hrest :
    length (map (fun i => (0 + Z.of_nat i * max_batch_size)%Z) (seq 2 k')) * M <=
    list_sum (map (fun q => Nat.min (M + 1) (S (S k') * M - Z.to_nat q))
                  (map (fun i => (0 + Z.of_nat i * max_batch_size)%Z) (seq 2 k')))).
  { apply list_sum_lower. apply Forall_forall. intros q Hq.
    apply in_map_iff in Hq. destruct Hq as (i & <- & Hi). apply in_seq in Hi.
    assert (Z.to_nat (0 + Z.of_nat i * max_batch_size) = i * M) by (unfold M; nia).
    nia. }
  rewrite length_map, length_seq in Hrest.
  replace (Z.to_nat (0 + Z.of_nat 0 * max_batch_size)) with 0 in Hlow by lia.
  replace (Z.to_nat (0 + Z.of_nat 1 * max_batch_size)) with M in Hlow by (unfold M; lia).
  assert (HM : 0 < M) by (unfold M; lia).
  assert (E0 : Nat.min M (S (S k') * M - 0) = M) by nia.
  assert (E1 : Nat.min (M + 1) (S (S k') * M - M) = M + 1) by nia.
  assert (Ec : forall x l, list_sum (x :: l) = x + list_sum l) by reflexivity.
  rewrite Ec, E0, E1 in Hlow. nia.
Qed.

Lemma ctrans_repeats_long_prompts_witness :
  exists results,
    Ctrans.batch_generate_using_ctrans
      (fun s => repeat "t"%string (String.length s))
      (fun inputs _ => map (fun _ => "out"%string) inputs)
      ["ab"; "cd"; "efg"]%string 1 = inr results /\
    length ["ab"; "cd"; "efg"]%string < length results.
Proof.
  apply (ctrans_repeats_long_prompts
           (fun s => repeat "t"%string (String.length s))
           (fun inputs _ => map (fun _ => "out"%string) inputs)
           ["ab"; "cd"; "efg"]%string 1 3).
  - intros inputs m. apply length_map.
  - lia.
  - repeat constructor; simpl; lia.
  - reflexivity.
  - lia.
Defined.
